(** * Riemann-S: spectral integrity analyzer

    A shallow embedding of [riemann_s_master.py] (class [RiemannS]) and the
    properties of its scoring pipeline.

    Number model.  The program computes with NumPy float64 arrays.  Here a
    finite number is a mathematical real ([R]); the values that IEEE
    arithmetic adds to the reals (the two infinities and NaN, which the
    program can reach through a division by zero) are kept explicitly in
    the type [float].  Rounding, overflow and signed zeros are not
    modelled.  A sample handed to the analyzer is a finite list of reals.
    Where the float64 computation only approximates the exact value, a
    statement on numbers carries a tolerance, and where it can underflow
    or overflow the sample is required to lie in a safe range
    ([float_safe]).  The module [Binary64] holds the unfolding and the
    histogram on IEEE binary64 numbers, for computing what rounding and
    underflow do on concrete samples.

    Effects.  A method reads the attributes of its instance, may print a
    line and may propagate an exception raised by a library call; it is
    a function from the world before the call to an outcome and the
    world after it. *)

From Stdlib Require Import String Ascii DecimalString.
From Stdlib Require Import Reals Lra Lia ZArith Bool List.
From Stdlib Require Import Permutation Sorted.
From Stdlib Require PrimFloat Uint63.
Import ListNotations.

Open Scope R_scope.

(** ** Decidable tests on reals, as booleans *)

Definition Rltb (x y : R) : bool := if Rlt_dec x y then true else false.
Definition Rleb (x y : R) : bool := if Rle_dec x y then true else false.
Definition Reqb0 (x : R) : bool := if Req_dec_T x 0 then true else false.

(** ** Extended values: what a float64 cell can hold *)

Inductive float : Type :=
| Fin (r : R)
| PInf
| NInf
| NaN.

Definition isnan (x : float) : bool :=
  match x with NaN => true | _ => false end.

Definition fopp (x : float) : float :=
  match x with
  | Fin a => Fin (- a)
  | PInf => NInf
  | NInf => PInf
  | NaN => NaN
  end.

Definition fadd (x y : float) : float :=
  match x, y with
  | NaN, _ | _, NaN => NaN
  | Fin a, Fin b => Fin (a + b)
  | PInf, NInf | NInf, PInf => NaN
  | PInf, _ | _, PInf => PInf
  | NInf, _ | _, NInf => NInf
  end.

(** Sign of an extended value: [Some true] positive, [Some false]
    negative, [None] zero or NaN. *)
Definition fsign (x : float) : option bool :=
  match x with
  | Fin a => if Rltb 0 a then Some true else if Rltb a 0 then Some false else None
  | PInf => Some true
  | NInf => Some false
  | NaN => None
  end.

Definition inf_of_sign (s : bool) : float := if s then PInf else NInf.

Definition fmul (x y : float) : float :=
  match x, y with
  | NaN, _ | _, NaN => NaN
  | Fin a, Fin b => Fin (a * b)
  | _, _ =>
      match fsign x, fsign y with
      | Some s, Some t => inf_of_sign (Bool.eqb s t)
      | _, _ => NaN
      end
  end.

Definition fdiv (x y : float) : float :=
  match x, y with
  | NaN, _ | _, NaN => NaN
  | Fin a, Fin b =>
      if Reqb0 b then
        match fsign x with
        | Some s => inf_of_sign s
        | None => NaN
        end
      else Fin (a / b)
  | Fin _, _ => Fin 0
  | _, Fin b => if Rltb b 0 then fopp x else x
  | _, _ => NaN
  end.

Definition fexp (x : float) : float :=
  match x with
  | Fin a => Fin (exp a)
  | PInf => PInf
  | NInf => Fin 0
  | NaN => NaN
  end.

Definition flog (x : float) : float :=
  match x with
  | Fin a => if Rltb 0 a then Fin (ln a) else if Reqb0 a then NInf else NaN
  | PInf => PInf
  | NInf => NaN
  | NaN => NaN
  end.

(** [x < v] and [x <= v] for a cell [x] and a finite [v]; false on NaN. *)
Definition flt (x : float) (v : R) : bool :=
  match x with
  | Fin a => Rltb a v
  | NInf => true
  | PInf | NaN => false
  end.

Definition fle (x : float) (v : R) : bool :=
  match x with
  | Fin a => Rleb a v
  | NInf => true
  | PInf | NaN => false
  end.

(** ** What a call can produce: a value or a raised exception *)

Inductive exn : Type :=
| ValueError (msg : string).

Inductive outcome (X : Type) : Type :=
| Returned (x : X)
| Raised (e : exn).

Arguments Returned {X} x.
Arguments Raised {X} e.

(** ** The NumPy and SciPy functions the program calls *)

Fixpoint insert_sorted (x : R) (l : list R) : list R :=
  match l with
  | [] => [x]
  | y :: l' => if Rleb x y then x :: l else y :: insert_sorted x l'
  end.

(** [np.sort] on a list of finite values: ascending order. *)
Fixpoint np_sort (l : list R) : list R :=
  match l with
  | [] => []
  | x :: l' => insert_sorted x (np_sort l')
  end.

(** [np.diff]: [out[i] = a[i+1] - a[i]]. *)
Fixpoint np_diff (l : list R) : list R :=
  match l with
  | a :: (b :: _) as t => (b - a) :: np_diff t
  | _ => []
  end.

Definition Rsum (l : list R) : R := fold_right Rplus 0 l.

(** [np.sum] of an array that may hold non-finite cells. *)
Definition np_sum (l : list float) : float := fold_right fadd (Fin 0) l.

(** [np.mean]: the sum divided by the number of elements. *)
Definition np_mean (l : list R) : float :=
  fdiv (Fin (Rsum l)) (Fin (INR (length l))).

Definition fmean (l : list float) : float :=
  fdiv (np_sum l) (Fin (INR (length l))).

Fixpoint set_last (l : list R) (v : R) : list R :=
  match l with
  | [] => []
  | [_] => [v]
  | x :: l' => x :: set_last l' v
  end.

(** [np.linspace(start, stop, num)] with the end point included:
    [start + i * step] and the last cell overwritten with [stop]. *)
Definition linspace (start stop : R) (num : nat) : list R :=
  let step := (stop - start) / INR (num - 1) in
  let y := map (fun i => INR i * step + start) (seq 0 num) in
  if (1 <? num)%nat then set_last y stop else y.

Fixpoint map2 {X Y Z : Type} (f : X -> Y -> Z) (l : list X) (m : list Y) : list Z :=
  match l, m with
  | x :: l', y :: m' => f x y :: map2 f l' m'
  | _, _ => []
  end.

Definition count_if {X : Type} (p : X -> bool) (l : list X) : Z :=
  Z.of_nat (length (filter p l)).

(** [sa.searchsorted(v, 'left')] on the sorted data: the number of cells
    strictly below [v] (NaN sorts last and is never below). *)
Definition searchsorted_left (a : list float) (v : R) : Z :=
  count_if (fun x => flt x v) a.

(** [sa.searchsorted(v, 'right')]: the number of cells at most [v]. *)
Definition searchsorted_right (a : list float) (v : R) : Z :=
  count_if (fun x => fle x v) a.

(** [_search_sorted_inclusive]: left insertion points for every edge but
    the last, right insertion point for the last edge, so that the last
    bin is closed. *)
Fixpoint search_sorted_inclusive (a : list float) (edges : list R) : list Z :=
  match edges with
  | [] => []
  | [e] => [searchsorted_right a e]
  | e :: edges' => searchsorted_left a e :: search_sorted_inclusive a edges'
  end.

Fixpoint Zdiff (l : list Z) : list Z :=
  match l with
  | a :: (b :: _) as t => (b - a)%Z :: Zdiff t
  | _ => []
  end.

Definition Zsum (l : list Z) : Z := fold_right Z.add 0%Z l.

(** Raw counts of [np.histogram(a, bins=edges)]. *)
Definition histogram_counts (a : list float) (edges : list R) : list Z :=
  Zdiff (search_sorted_inclusive a edges).

(** [np.histogram(a, bins=edges, density=True)]: [n / db / n.sum()]. *)
Definition np_histogram_density (a : list float) (edges : list R) : list float :=
  let n := histogram_counts a edges in
  let db := np_diff edges in
  let total := Fin (IZR (Zsum n)) in
  map2 (fun ni dbi => fdiv (fdiv (Fin (IZR ni)) (Fin dbi)) total) n db.

(** [scipy.special.rel_entr]. *)
Definition rel_entr (x y : float) : float :=
  if isnan x || isnan y then NaN
  else
    match fsign x, fsign y with
    | Some true, Some true => fmul x (flog (fdiv x y))
    | None, (Some true | None) => Fin 0
    | _, _ => PInf
    end.

(** Complex numbers as pairs (real part, imaginary part). *)
Definition C : Type := (R * R)%type.

Definition Cadd (z w : C) : C := (fst z + fst w, snd z + snd w).
Definition Cmul (z w : C) : C :=
  (fst z * fst w - snd z * snd w, fst z * snd w + snd z * fst w).
(** A real number times a complex one (NumPy promotes the real operand). *)
Definition Cscale (x : R) (z : C) : C := (x * fst z, x * snd z).
(** [np.exp(1j * y)]. *)
Definition Cexp_i (y : R) : C := (cos y, sin y).
(** [np.abs] of a complex number. *)
Definition Cabs (z : C) : R := sqrt (fst z * fst z + snd z * snd z).
Definition Csum (l : list C) : C := fold_right Cadd (0, 0) l.

(** The discrete Fourier transform,
    [X[k] = sum_t z[t] * exp(-2 pi i k t / n)]. *)
Definition dft (z : list C) : list C :=
  let n := length z in
  map (fun k =>
         Csum (map2 (fun t zt =>
                       Cmul zt (Cexp_i (- (2 * PI * INR k * INR t) / INR n)))
                    (seq 0 n) z))
      (seq 0 n).

(** [np.fft.fft]: the transform of a non-empty array; an empty one is
    refused with [ValueError]. *)
Definition np_fft (z : list C) : outcome (list C) :=
  if (length z <? 1)%nat
  then Raised (ValueError "Invalid number of FFT data points (0) specified.")
  else Returned (dft z).

(** ** The object and the effects of a call *)

(** A float attribute written as a decimal literal, [dec_digits * 10^-dec_scale];
    [5.26] is [{| dec_digits := 526; dec_scale := 2 |}]. *)
Record decimal : Type := { dec_digits : Z; dec_scale : nat }.

Definition dec_value (d : decimal) : R :=
  IZR (dec_digits d) / IZR (10 ^ Z.of_nat (dec_scale d)).

Fixpoint zero_pad (width : nat) (s : string) : string :=
  match width with
  | O => s
  | S w => if (String.length s <? width)%nat then zero_pad w (String "0" s) else s
  end.

(** What an f-string prints for the attribute (a nonnegative literal):
    integer part, point, fractional digits. *)
Definition dec_repr (d : decimal) : string :=
  let p := (10 ^ Z.of_nat (dec_scale d))%Z in
  (NilZero.string_of_uint (N.to_uint (Z.to_N (dec_digits d / p)))
   ++ "."
   ++ zero_pad (dec_scale d) (NilZero.string_of_uint (N.to_uint (Z.to_N (dec_digits d mod p)))))%string.

(** The attributes of a [RiemannS] instance. *)
Record RiemannS : Type := {
  A : R;
  B : R;
  resonance_eta : decimal
}.

(** What a method can touch: the instance it is called on and the text
    printed so far. *)
Record world : Type := {
  self : RiemannS;
  stdout : list string
}.

Definition M (X : Type) : Type := world -> outcome X * world.

Definition ret {X : Type} (x : X) : M X := fun w => (Returned x, w).

Definition bind {X Y : Type} (m : M X) (k : X -> M Y) : M Y :=
  fun w =>
    match m w with
    | (Returned x, w') => k x w'
    | (Raised e, w') => (Raised e, w')
    end.

(** The outcome of a library call, inside a method. *)
Definition lift {X : Type} (o : outcome X) : M X := fun w => (o, w).

Notation "x <- m ;; k" := (bind m (fun x => k))
  (at level 61, m at next level, right associativity).
Notation "m ;; k" := (bind m (fun _ => k))
  (at level 61, right associativity).

(** Reading an attribute of [self]. *)
Definition attr {X : Type} (field : RiemannS -> X) : M X :=
  fun w => (Returned (field (self w)), w).

Definition print (line : string) : M unit :=
  fun w => (Returned tt, {| self := self w; stdout := stdout w ++ [line] |}).

(** The dictionary [analyze_integrity] returns. *)
Record ScoreResult : Type := {
  label : string;
  score : float;
  spectrum : list R * list float * list R
}.

(** ** The class [RiemannS] *)

Definition __init__ : RiemannS :=
  {| A := 32 / (PI ^ 2);
     B := 4 / PI;
     resonance_eta := {| dec_digits := 526; dec_scale := 2 |} |}.

Definition _unfold (data : list R) : list float :=
  let diffs := np_diff data in
  if (length diffs =? 0)%nat then []
  else map (fun d => fdiv (Fin d) (np_mean diffs)) diffs.

Definition _wigner_pdf (s : list R) : M (list R) :=
  a <- attr A ;;
  b <- attr B ;;
  ret (map (fun x => a * x ^ 2 * exp (- b * x ^ 2)) s).

(** The pieces of [analyze_integrity], named as its local variables. *)

Definition clean_data (input_data : list R) : list R :=
  np_sort (filter (fun x => Rltb 0 x) input_data).

Definition bins : list R := linspace 0 3 40.

Definition centers : list R :=
  map2 (fun lo hi => (lo + hi) / 2) (removelast bins) (tl bins).

Definition epsilon : R := 1 / 10 ^ 10.

Definition divergence (hist : list float) (theory : list R) : float :=
  np_sum (map2 rel_entr
            (map (fun h => fadd h (Fin epsilon)) hist)
            (map (fun q => Fin (q + epsilon)) theory)).

Definition score_of (div : float) : float :=
  fmul (Fin 100) (fexp (fopp div)).

Definition analyze_integrity (input_data : list R) (label : string)
  : M (option ScoreResult) :=
  let clean := clean_data input_data in
  if (length clean <? 50)%nat then
    print (" [ERROR] Muestra insuficiente para " ++ label) ;;
    ret None
  else
    let s := _unfold clean in
    let hist := np_histogram_density s bins in
    theory <- _wigner_pdf centers ;;
    let div := divergence hist theory in
    ret (Some {| label := label;
                 score := score_of div;
                 spectrum := (centers, hist, theory) |}).

Definition scan_resonance (data : list R) : M (option ScoreResult) :=
  let t := seq 0 (length data) in
  eta <- attr resonance_eta ;;
  let quantum_filter := map (fun t => Cexp_i (dec_value eta / (INR t + 1))) t in
  transformed <- lift (np_fft (map2 Cscale data quantum_filter)) ;;
  let filtered := map Cabs transformed in
  analyze_integrity filtered ("Resonancia (Eta=" ++ dec_repr eta ++ ")").

(** A freshly constructed analyzer, nothing printed yet. *)
Definition engine : world := {| self := __init__; stdout := [] |}.

(** ** Quantities and samples the statements speak about *)

(** The Wigner-Dyson surmise with constants [a] and [b]. *)
Definition wigner_dyson (a b s : R) : R := a * s ^ 2 * exp (- b * s ^ 2).

(** The empirical histogram of a cleaned sample, as [analyze_integrity]
    builds it. *)
Definition empirical_histogram (clean : list R) : list float :=
  np_histogram_density (_unfold clean) bins.

(** The theoretical curve an instance evaluates at the bin centers. *)
Definition theoretical_curve (o : RiemannS) : list R :=
  map (wigner_dyson (A o) (B o)) centers.

Definition bin_width : R := 3 / 39.

(** A cleaned sample has non-degenerate spacings when its consecutive
    differences are not all zero. *)
Definition nondegenerate (clean : list R) : Prop :=
  exists d, In d (np_diff clean) /\ d <> 0.

(** The sequence [scan_resonance] hands to the scorer when the transform
    accepts the sample: the magnitudes of the Fourier coefficients of the
    phase-filtered sample. *)
Definition resonance_transform (eta : R) (data : list R) : list R :=
  let t := seq 0 (length data) in
  let quantum_filter := map (fun t => Cexp_i (eta / (INR t + 1))) t in
  map Cabs (dft (map2 Cscale data quantum_filter)).

(** The label [scan_resonance] builds for an instance. *)
Definition scan_label (o : RiemannS) : string :=
  ("Resonancia (Eta=" ++ dec_repr (resonance_eta o) ++ ")")%string.

(** The diagnostic line of the insufficient-sample path. *)
Definition diagnostic (label : string) : string :=
  (" [ERROR] Muestra insuficiente para " ++ label)%string.

(** The world after one more printed line. *)
Definition printed (w : world) (line : string) : world :=
  {| self := self w; stdout := stdout w ++ [line] |}.

(** Partial sums of a complex sequence, [f 0 + ... + f (n-1)]. *)
Fixpoint Csum_upto (f : nat -> C) (n : nat) : C :=
  match n with
  | O => (0, 0)
  | S m => Cadd (Csum_upto f m) (f m)
  end.

(** The transform as the specification words it: element [t] of the
    sample times the phase factor [exp(i eta/(t+1))], then the magnitude
    of the [k]-th discrete Fourier coefficient. *)
Definition phase_factor (eta : R) (t : nat) : C := Cexp_i (eta / (INR t + 1)).

Definition dft_magnitude (eta : R) (data : list R) (k : nat) : R :=
  let n := length data in
  Cabs (Csum_upto
          (fun t => Cmul (Cscale (nth t data 0) (phase_factor eta t))
                         (Cexp_i (- (2 * PI * INR k * INR t) / INR n)))
          n).

(** A unit impulse of length 50, a constant sample, and the arithmetic
    sequence 1, 2, ..., n. *)
Definition impulse50 : list R := 1 :: repeat 0 49.
Definition ones50 : list R := repeat 1 50.
Definition ramp (n : nat) : list R := map INR (seq 1 n).

(** The edges of the 39 bins, in closed form. *)
Definition bin_edge (k : nat) : R := INR k / 13.

(** Mean spacing of a cleaned sample, as a real. *)
Definition mean_spacing (c : list R) : R :=
  Rsum (np_diff c) / INR (length (np_diff c)).

(** The relative-entropy sum on finite densities. *)
Definition kl_sum (hs qs : list R) : R :=
  Rsum (map2 (fun h q => (h + epsilon) * ln ((h + epsilon) / (q + epsilon))) hs qs).

(** ** Integer arithmetic for a certified numeric bound *)

(** Fixed-point lower bounds of [exp]: [exp x >= (1 + x / 2^j)^(2^j)],
    computed on integers scaled by [scale], rounding down at each step. *)

Fixpoint square_down (scale : Z) (j : nat) (y : Z) : Z :=
  match j with
  | O => y
  | S j' => square_down scale j' ((y * y) / scale)
  end.

Definition exp_lower (scale : Z) (j : nat) (xn xd : Z) : Z :=
  square_down scale j (scale + (xn * scale) / (xd * 2 ^ Z.of_nat j)).

(** An integer [u] with [(2k+1)^2 * exp (- x_k) <= u / prec], where
    [x_k = (4 / (phn/phd)) * ((2k+1)/26)^2]. *)
Definition wigner_term_upper (scale prec : Z) (j : nat) (phn phd : Z) (k : Z) : Z :=
  let o := (2 * k + 1)%Z in
  let y := exp_lower scale j (4 * o * o * phd) (676 * phn) in
  ((o * o * scale * prec) / y + 1)%Z.

Definition fx_scale : Z := 2 ^ 100.
Definition fx_prec : Z := 10 ^ 12.
Definition fx_steps : nat := 20.

(** ** The report and the example run *)

(** [x > v] for a cell [x] and a finite [v]; false on NaN. *)
Definition fgt (x : float) (v : R) : bool :=
  match x with
  | Fin a => Rltb v a
  | PInf => true
  | NInf | NaN => false
  end.

Definition newline : string := String (ascii_of_nat 10) EmptyString.

Definition veredicto_robusto : string := "SISTEMA ROBUSTO (GUE - Natural)".
Definition veredicto_ruido : string := "RUIDO O FRACTURA (Poisson - Aleatorio)".
Definition veredicto_transicion : string := "TRANSICIÓN / SOSPECHOSO".

(** The three-way classification of [generate_report]. *)
Definition veredicto (score : float) : string :=
  if fgt score 80 then veredicto_robusto
  else if flt score 30 then veredicto_ruido
  else veredicto_transicion.

(** [np.cumsum]: running sums. *)
Fixpoint cumsum_from (acc : R) (l : list R) : list R :=
  match l with
  | [] => []
  | x :: l' => (acc + x) :: cumsum_from (acc + x) l'
  end.

Definition np_cumsum (l : list R) : list R :=
  match l with
  | [] => []
  | x :: l' => x :: cumsum_from x l'
  end.

(** [engine = RiemannS()]: a fresh instance becomes the one the methods
    are called on. *)
Definition construct : M unit :=
  fun w => (Returned tt, {| self := __init__; stdout := stdout w |}).

Section Report.

(** Python's built-in formatting of a float with two decimals
    ([f"{score:.2f}"]) is not code of the repository; the text it produces
    is a parameter of the report. *)
Variable format_2f : float -> string.

Definition generate_report (result : option ScoreResult) : M unit :=
  match result with
  | None => ret tt
  | Some r =>
      let score := score r in
      print (newline ++ "📊 REPORTE RIEMANN-S: " ++ label r) ;;
      print ("   > Integridad Estructural: " ++ format_2f score ++ "%") ;;
      print ("   > ESTADO: " ++ veredicto score)
  end.

(** The example run under [if __name__ == "__main__"].  The values drawn
    by [np.random.exponential(1, 1000)] are the argument [draw]. *)
Definition main (draw : list R) : M unit :=
  print "Iniciando Riemann-S System..." ;;
  construct ;;
  let data_test := np_cumsum draw in
  res1 <- analyze_integrity data_test "Test Ruido" ;;
  generate_report res1 ;;
  res2 <- scan_resonance data_test ;;
  generate_report res2.

End Report.

(** The three texts [generate_report] prints for a record. *)
Definition report_lines (format_2f : float -> string) (r : ScoreResult) : list string :=
  [ (newline ++ "📊 REPORTE RIEMANN-S: " ++ label r)%string;
    ("   > Integridad Estructural: " ++ format_2f (score r) ++ "%")%string;
    ("   > ESTADO: " ++ veredicto (score r))%string ].

(** The world after several more printed texts. *)
Definition printed_all (w : world) (lines : list string) : world :=
  {| self := self w; stdout := stdout w ++ lines |}.

(** The cleaned samples on which the float64 computation of the
    differences and of their mean neither underflows nor overflows: every
    value lies between 1e-100 and 1e100. *)
Definition float_safe (c : list R) : Prop :=
  Forall (fun x => / 10 ^ 100 <= x <= 10 ^ 100) c.

(** ** The array operations of the unfolding and of the histogram in
       IEEE binary64

    The program computes in float64.  The operations below are those of
    [_unfold] and of the histogram on Rocq's primitive binary64 numbers,
    so that rounding and underflow can be computed on concrete samples.
    [np.sum] is written as a left-to-right sum; NumPy adds in blocks, and
    the lemmas on this module are stated on samples for which every order
    of addition gives the same number. *)
Module Binary64.

Definition f64 : Set := PrimFloat.float.

Definition of_Z (z : Z) : f64 := PrimFloat.of_uint63 (Uint63.of_Z z).

(** The smallest positive binary64 number, 2^-1074 (printed 5e-324). *)
Definition tiny : f64 :=
  PrimFloat.ldshiftexp (of_Z 1) (Uint63.of_Z (2101 - 1074)).

Fixpoint np_diff (l : list f64) : list f64 :=
  match l with
  | a :: (b :: _) as t => PrimFloat.sub b a :: np_diff t
  | _ => []
  end.

Definition np_sum (l : list f64) : f64 := fold_left PrimFloat.add l (of_Z 0).

Definition np_mean (l : list f64) : f64 :=
  PrimFloat.div (np_sum l) (of_Z (Z.of_nat (length l))).

Definition _unfold (data : list f64) : list f64 :=
  let diffs := np_diff data in
  if (length diffs =? 0)%nat then []
  else map (fun d => PrimFloat.div d (np_mean diffs)) diffs.

Fixpoint set_last (l : list f64) (v : f64) : list f64 :=
  match l with
  | [] => []
  | [_] => [v]
  | x :: l' => x :: set_last l' v
  end.

Definition linspace (start stop : f64) (num : nat) : list f64 :=
  let step := PrimFloat.div (PrimFloat.sub stop start) (of_Z (Z.of_nat (num - 1))) in
  let y := map (fun i => PrimFloat.add (PrimFloat.mul (of_Z (Z.of_nat i)) step) start)
               (seq 0 num) in
  if (1 <? num)%nat then set_last y stop else y.

Definition bins : list f64 := linspace (of_Z 0) (of_Z 3) 40.

Definition count_if (p : f64 -> bool) (l : list f64) : Z :=
  Z.of_nat (length (filter p l)).

Fixpoint search_sorted_inclusive (a : list f64) (edges : list f64) : list Z :=
  match edges with
  | [] => []
  | [e] => [count_if (fun x => PrimFloat.leb x e) a]
  | e :: edges' =>
      count_if (fun x => PrimFloat.ltb x e) a :: search_sorted_inclusive a edges'
  end.

Fixpoint Zdiff (l : list Z) : list Z :=
  match l with
  | a :: (b :: _) as t => (b - a)%Z :: Zdiff t
  | _ => []
  end.

Definition histogram_counts (a : list f64) (edges : list f64) : list Z :=
  Zdiff (search_sorted_inclusive a edges).

Fixpoint map2 {X Y Z : Type} (f : X -> Y -> Z) (l : list X) (m : list Y) : list Z :=
  match l, m with
  | x :: l', y :: m' => f x y :: map2 f l' m'
  | _, _ => []
  end.

Definition np_histogram_density (a : list f64) (edges : list f64) : list f64 :=
  let n := histogram_counts a edges in
  let db := np_diff edges in
  let total := of_Z (fold_right Z.add 0%Z n) in
  map2 (fun ni dbi => PrimFloat.div (PrimFloat.div (of_Z ni) dbi) total) n db.

Definition empirical_histogram (clean : list f64) : list f64 :=
  np_histogram_density (_unfold clean) bins.

Definition bin_width : f64 := PrimFloat.div (of_Z 3) (of_Z 39).

End Binary64.

(** * Properties *)

Example repr_eta : dec_repr (resonance_eta __init__) = "5.26"%string.
Proof. reflexivity. Qed.

Example value_eta : dec_value (resonance_eta __init__) = 5.26.
Proof. unfold dec_value; simpl. lra. Qed.

(** ** Boolean tests *)

Lemma Rltb_true (x y : R) : x < y -> Rltb x y = true.
Proof. intros H; unfold Rltb; destruct (Rlt_dec x y); [reflexivity | contradiction]. Qed.

Lemma Rltb_false (x y : R) : y <= x -> Rltb x y = false.
Proof. intros H; unfold Rltb; destruct (Rlt_dec x y); [lra | reflexivity]. Qed.

Lemma Rltb_spec (x y : R) : Rltb x y = true <-> x < y.
Proof. unfold Rltb; destruct (Rlt_dec x y); split; intros; auto; discriminate. Qed.

Lemma Rleb_true (x y : R) : x <= y -> Rleb x y = true.
Proof. intros H; unfold Rleb; destruct (Rle_dec x y); [reflexivity | contradiction]. Qed.

Lemma Rleb_false (x y : R) : y < x -> Rleb x y = false.
Proof. intros H; unfold Rleb; destruct (Rle_dec x y); [lra | reflexivity]. Qed.

Lemma Rleb_spec (x y : R) : Rleb x y = true <-> x <= y.
Proof. unfold Rleb; destruct (Rle_dec x y); split; intros; auto; discriminate. Qed.

Lemma Reqb0_true (x : R) : x = 0 -> Reqb0 x = true.
Proof. intros H; unfold Reqb0; destruct (Req_dec_T x 0); [reflexivity | contradiction]. Qed.

Lemma Reqb0_false (x : R) : x <> 0 -> Reqb0 x = false.
Proof. intros H; unfold Reqb0; destruct (Req_dec_T x 0); [contradiction | reflexivity]. Qed.

Lemma fdiv_fin (a b : R) : b <> 0 -> fdiv (Fin a) (Fin b) = Fin (a / b).
Proof. intros H; unfold fdiv; now rewrite Reqb0_false. Qed.

Lemma fdiv_zero_zero : fdiv (Fin 0) (Fin 0) = NaN.
Proof.
  unfold fdiv, fsign. rewrite Reqb0_true by reflexivity.
  now rewrite Rltb_false by lra.
Qed.

(** ** Sorting *)

Lemma insert_sorted_perm (x : R) (l : list R) : Permutation (x :: l) (insert_sorted x l).
Proof.
  induction l as [|y l IH]; simpl; [constructor; constructor|].
  destruct (Rleb x y); [apply Permutation_refl|].
  eapply perm_trans; [apply perm_swap | now constructor].
Qed.

Lemma np_sort_perm (l : list R) : Permutation l (np_sort l).
Proof.
  induction l as [|x l IH]; simpl; [constructor|].
  eapply perm_trans; [apply perm_skip, IH | apply insert_sorted_perm].
Qed.

Lemma np_sort_length (l : list R) : length (np_sort l) = length l.
Proof. symmetry; apply Permutation_length, np_sort_perm. Qed.

Lemma insert_sorted_sorted (x : R) (l : list R) :
  StronglySorted Rle l -> StronglySorted Rle (insert_sorted x l).
Proof.
  induction 1 as [|y l Hs IH Hall]; simpl.
  - constructor; constructor.
  - destruct (Rle_dec x y) as [Hxy|Hxy].
    + rewrite Rleb_true by assumption.
      constructor; [now constructor|].
      constructor; [assumption|].
      eapply Forall_impl; [|exact Hall]. intros; lra.
    + rewrite Rleb_false by lra.
      constructor; [assumption|].
      eapply Permutation_Forall; [apply insert_sorted_perm|].
      constructor; [lra | assumption].
Qed.

Lemma np_sort_sorted (l : list R) : StronglySorted Rle (np_sort l).
Proof.
  induction l; simpl; [constructor | now apply insert_sorted_sorted].
Qed.

(** Two ascending lists with the same elements are the same list. *)
Lemma sorted_perm_unique (l m : list R) :
  StronglySorted Rle l -> StronglySorted Rle m -> Permutation l m -> l = m.
Proof.
  intros Hl; revert m.
  induction Hl as [|x l Hs IH Hx]; intros m Hm Hp.
  - now apply Permutation_nil in Hp.
  - destruct Hm as [|y m Hsm Hy].
    + now apply Permutation_sym, Permutation_nil in Hp.
    + assert (x = y) as ->.
      { assert (In x (y :: m)) as Hin1
          by (eapply Permutation_in; [exact Hp | now left]).
        assert (In y (x :: l)) as Hin2
          by (eapply Permutation_in; [apply Permutation_sym, Hp | now left]).
        rewrite Forall_forall in Hx, Hy.
        destruct Hin1 as [->|Hin1]; [reflexivity|].
        destruct Hin2 as [->|Hin2]; [reflexivity|].
        apply Rle_antisym; auto. }
      f_equal. apply IH; [assumption|]. now apply Permutation_cons_inv in Hp.
Qed.

Lemma np_sort_sorted_id (l : list R) : StronglySorted Rle l -> np_sort l = l.
Proof.
  intros H. apply sorted_perm_unique; [apply np_sort_sorted | assumption |].
  apply Permutation_sym, np_sort_perm.
Qed.

Lemma filter_perm {X : Type} (p : X -> bool) (l m : list X) :
  Permutation l m -> Permutation (filter p l) (filter p m).
Proof.
  induction 1; simpl.
  - constructor.
  - destruct (p x); [now constructor | assumption].
  - destruct (p x), (p y); try apply Permutation_refl; apply perm_swap.
  - eapply perm_trans; eassumption.
Qed.

Lemma clean_data_perm (l m : list R) :
  Permutation l m -> clean_data l = clean_data m.
Proof.
  intros H. unfold clean_data.
  apply sorted_perm_unique; try apply np_sort_sorted.
  eapply perm_trans; [apply Permutation_sym, np_sort_perm|].
  eapply perm_trans; [|apply np_sort_perm].
  now apply filter_perm.
Qed.

Lemma clean_data_sorted (l : list R) : StronglySorted Rle (clean_data l).
Proof. apply np_sort_sorted. Qed.

Lemma clean_data_in (l : list R) (x : R) :
  In x (clean_data l) <-> In x l /\ 0 < x.
Proof.
  unfold clean_data. split.
  - intros H. eapply Permutation_in in H; [|apply Permutation_sym, np_sort_perm].
    apply filter_In in H. now rewrite Rltb_spec in H.
  - intros [H1 H2]. eapply Permutation_in; [apply np_sort_perm|].
    apply filter_In. now rewrite Rltb_spec.
Qed.

Lemma clean_data_length_le (l : list R) : (length (clean_data l) <= length l)%nat.
Proof. unfold clean_data. rewrite np_sort_length. apply filter_length_le. Qed.

Lemma filter_all {X : Type} (p : X -> bool) (l : list X) :
  Forall (fun x => p x = true) l -> filter p l = l.
Proof.
  induction 1 as [|x l Hx _ IH]; simpl; [reflexivity|].
  now rewrite Hx, IH.
Qed.

Lemma filter_none {X : Type} (p : X -> bool) (l : list X) :
  Forall (fun x => p x = false) l -> filter p l = [].
Proof.
  induction 1 as [|x l Hx _ IH]; simpl; [reflexivity|].
  now rewrite Hx, IH.
Qed.

(** ** Lists built by [repeat] *)

Lemma map_const {X Y : Type} (f : X -> Y) (c : Y) (l : list X) :
  (forall x, In x l -> f x = c) -> map f l = repeat c (length l).
Proof.
  induction l as [|x l IH]; simpl; intros H; [reflexivity|].
  rewrite H by now left. f_equal. apply IH. intros; apply H; now right.
Qed.


Lemma sorted_repeat (v : R) (n : nat) : StronglySorted Rle (repeat v n).
Proof.
  induction n; simpl; constructor; [assumption|].
  apply Forall_forall. intros x Hx. apply repeat_spec in Hx. subst; lra.
Qed.

Lemma clean_data_repeat_pos (v : R) (n : nat) :
  0 < v -> clean_data (repeat v n) = repeat v n.
Proof.
  intros Hv. unfold clean_data. rewrite filter_all.
  - apply np_sort_sorted_id, sorted_repeat.
  - apply Forall_forall. intros x Hx. apply repeat_spec in Hx. subst.
    now apply Rltb_true.
Qed.

Lemma clean_data_repeat_zero (n : nat) : clean_data (repeat 0 n) = [].
Proof.
  unfold clean_data. rewrite filter_none; [reflexivity|].
  apply Forall_forall. intros x Hx. apply repeat_spec in Hx. subst.
  apply Rltb_false; lra.
Qed.

Lemma np_diff_repeat (v : R) (n : nat) :
  Forall (fun d => d = 0) (np_diff (repeat v n)).
Proof.
  induction n as [|n IH]; simpl; [constructor|].
  destruct n as [|n]; simpl in *; [constructor|].
  constructor; [lra | exact IH].
Qed.

Lemma np_diff_length (l : list R) : length (np_diff l) = (length l - 1)%nat.
Proof.
  induction l as [|a l IH]; [reflexivity|].
  destruct l as [|b l]; [reflexivity|].
  change (np_diff (a :: b :: l)) with ((b - a) :: np_diff (b :: l)).
  simpl length in *. lia.
Qed.

Lemma Rsum_zero (l : list R) : Forall (fun d => d = 0) l -> Rsum l = 0.
Proof. induction 1; simpl; [reflexivity | unfold Rsum in *; lra]. Qed.

(** ** The transform of [scan_resonance] on special samples *)

Lemma map2_length {X Y Z : Type} (f : X -> Y -> Z) (l : list X) (m : list Y) :
  length (map2 f l m) = Nat.min (length l) (length m).
Proof.
  revert m; induction l as [|x l IH]; intros [|y m]; simpl; auto.
Qed.

Lemma resonance_transform_length (eta : R) (data : list R) :
  length (resonance_transform eta data) = length data.
Proof.
  unfold resonance_transform, dft.
  rewrite !length_map, length_seq, map2_length, length_map, length_seq.
  apply Nat.min_id.
Qed.

Lemma Cabs_nonneg (z : C) : 0 <= Cabs z.
Proof. apply sqrt_pos. Qed.

Lemma resonance_transform_nonneg (eta : R) (data : list R) :
  Forall (fun m => 0 <= m) (resonance_transform eta data).
Proof.
  unfold resonance_transform. apply Forall_forall. intros m Hm.
  apply in_map_iff in Hm. destruct Hm as [z [<- _]]. apply Cabs_nonneg.
Qed.

Lemma map2_Cscale_zero (n : nat) (fs : list C) :
  Forall (fun z => z = (0, 0)) (map2 Cscale (repeat 0 n) fs).
Proof.
  revert fs; induction n as [|n IH]; intros [|f fs]; simpl; constructor.
  - unfold Cscale; f_equal; ring.
  - apply IH.
Qed.

Lemma Csum_map2_zero (g : nat -> C -> C) (ts : list nat) (zs : list C) :
  (forall t, g t (0, 0) = (0, 0)) ->
  Forall (fun z => z = (0, 0)) zs ->
  Csum (map2 g ts zs) = (0, 0).
Proof.
  intros Hg Hz; revert ts.
  induction Hz as [|z zs -> _ IH]; intros [|t ts]; simpl; try reflexivity.
  rewrite Hg, IH. unfold Cadd; simpl; f_equal; ring.
Qed.

Lemma Cmul_zero_l (w : C) : Cmul (0, 0) w = (0, 0).
Proof. unfold Cmul; simpl; f_equal; ring. Qed.

Lemma Cabs_zero : Cabs (0, 0) = 0.
Proof.
  unfold Cabs; simpl. replace (0 * 0 + 0 * 0) with 0 by ring. apply sqrt_0.
Qed.

(** An all-zero sample is transformed into an all-zero sequence. *)
Lemma resonance_transform_zero (eta : R) (n : nat) :
  resonance_transform eta (repeat 0 n) = repeat 0 n.
Proof.
  unfold resonance_transform, dft.
  rewrite map_map.
  rewrite (map_const _ 0).
  - now rewrite length_seq, map2_length, repeat_length, length_map, length_seq,
      Nat.min_id.
  - intros k _. rewrite Csum_map2_zero.
    + apply Cabs_zero.
    + intros t; apply Cmul_zero_l.
    + rewrite repeat_length. apply map2_Cscale_zero.
Qed.

Lemma twiddle_zero (k : nat) (n : R) :
  Cexp_i (- (2 * PI * INR k * INR 0) / n) = (1, 0).
Proof.
  unfold Cexp_i.
  replace (- (2 * PI * INR k * INR 0) / n) with 0
    by (simpl; unfold Rdiv; ring).
  now rewrite cos_0, sin_0.
Qed.

Lemma Cabs_unit_phase (y : R) : Cabs (Cadd (Cmul (Cscale 1 (Cexp_i y)) (1, 0)) (0, 0)) = 1.
Proof.
  unfold Cabs, Cadd, Cmul, Cscale, Cexp_i. cbn [fst snd].
  replace (_ + _) with ((sin y)² + (cos y)²) by (unfold Rsqr; ring).
  rewrite sin2_cos2. apply sqrt_1.
Qed.

(** A unit impulse is transformed into a constant sequence of ones. *)
Lemma resonance_transform_impulse (eta : R) (m : nat) :
  resonance_transform eta (1 :: repeat 0 m) = repeat 1 (S m).
Proof.
  unfold resonance_transform, dft.
  rewrite map_map.
  rewrite (map_const _ 1).
  - now rewrite length_seq, map2_length, length_map, length_seq, Nat.min_id;
      simpl; rewrite repeat_length.
  - intros k _.
    rewrite map2_length, length_map, length_seq, Nat.min_id.
    simpl length. rewrite repeat_length.
    set (n := INR (S m)).
    cbn [seq map map2 Csum fold_right].
    rewrite twiddle_zero.
    fold (Csum (map2 (fun (t : nat) (zt : C) =>
                  Cmul zt (Cexp_i (- (2 * PI * INR k * INR t) / n)))
                  (seq 1 m)
                  (map2 Cscale (repeat 0 m)
                     (map (fun t : nat => Cexp_i (eta / (INR t + 1))) (seq 1 m))))).
    rewrite Csum_map2_zero.
    + apply Cabs_unit_phase.
    + intros t; apply Cmul_zero_l.
    + apply map2_Cscale_zero.
Qed.

(** ** The two outcomes of [analyze_integrity] *)

Lemma analyze_integrity_short (input : list R) (lbl : string) (w : world) :
  (length (clean_data input) < 50)%nat ->
  analyze_integrity input lbl w = (Returned None, printed w (diagnostic lbl)).
Proof.
  intros H. unfold analyze_integrity.
  apply Nat.ltb_lt in H. rewrite H. reflexivity.
Qed.

Lemma analyze_integrity_long (input : list R) (lbl : string) (w : world) :
  (50 <= length (clean_data input))%nat ->
  analyze_integrity input lbl w =
  (Returned
     (Some {| label := lbl;
           score := score_of (divergence (empirical_histogram (clean_data input))
                                         (theoretical_curve (self w)));
           spectrum := (centers, empirical_histogram (clean_data input),
                        theoretical_curve (self w)) |}), w).
Proof.
  intros H. unfold analyze_integrity.
  apply Nat.ltb_ge in H. rewrite H. reflexivity.
Qed.

Lemma analyze_integrity_self (input : list R) (lbl : string) (w : world) :
  self (snd (analyze_integrity input lbl w)) = self w.
Proof.
  destruct (Nat.lt_ge_cases (length (clean_data input)) 50) as [H|H].
  - now rewrite analyze_integrity_short.
  - now rewrite analyze_integrity_long.
Qed.

(** A non-empty sample is transformed and scored; an empty one makes
    the transform raise. *)
Lemma scan_resonance_unfold (data : list R) (w : world) :
  data <> [] ->
  scan_resonance data w =
  analyze_integrity
    (resonance_transform (dec_value (resonance_eta (self w))) data)
    (scan_label (self w)) w.
Proof.
  intros Hne. unfold scan_resonance, bind, attr, lift, np_fft.
  rewrite map2_length, length_map, length_seq, Nat.min_id.
  destruct data as [|x data]; [contradiction|]. reflexivity.
Qed.

Lemma scan_resonance_empty (w : world) :
  scan_resonance [] w
  = (Raised (ValueError "Invalid number of FFT data points (0) specified."), w).
Proof. reflexivity. Qed.

Lemma scan_resonance_self (data : list R) (w : world) :
  self (snd (scan_resonance data w)) = self w.
Proof.
  destruct data as [|x data]; [reflexivity|].
  rewrite scan_resonance_unfold by discriminate. apply analyze_integrity_self.
Qed.

(** ** Histograms of data without any countable cell *)

Lemma count_if_none {X : Type} (p : X -> bool) (l : list X) :
  Forall (fun x => p x = false) l -> count_if p l = 0%Z.
Proof. intros H. unfold count_if. now rewrite filter_none. Qed.

Lemma search_sorted_all_nan (a : list float) (edges : list R) :
  Forall (fun x => x = NaN) a ->
  search_sorted_inclusive a edges = repeat 0%Z (length edges).
Proof.
  intros Ha.
  assert (Hl : forall v, searchsorted_left a v = 0%Z).
  { intros v. apply count_if_none. eapply Forall_impl; [|exact Ha].
    now intros x ->. }
  assert (Hr : forall v, searchsorted_right a v = 0%Z).
  { intros v. apply count_if_none. eapply Forall_impl; [|exact Ha].
    now intros x ->. }
  induction edges as [|e edges IH]; [reflexivity|].
  destruct edges as [|e' edges].
  - simpl. now rewrite Hr.
  - change (search_sorted_inclusive a (e :: e' :: edges))
      with (searchsorted_left a e :: search_sorted_inclusive a (e' :: edges)).
    rewrite IH, Hl. reflexivity.
Qed.

Lemma Zdiff_repeat_zero (n : nat) : Zdiff (repeat 0%Z n) = repeat 0%Z (n - 1).
Proof.
  induction n as [|n IH]; [reflexivity|].
  destruct n as [|n]; [reflexivity|].
  change (Zdiff (repeat 0%Z (S (S n))))
    with ((0 - 0)%Z :: Zdiff (repeat 0%Z (S n))).
  rewrite IH. simpl. now rewrite Nat.sub_0_r.
Qed.

Lemma Zsum_repeat_zero (n : nat) : Zsum (repeat 0%Z n) = 0%Z.
Proof. induction n; simpl; [reflexivity | exact IHn]. Qed.

Lemma density_of_zero_counts (db : R) : fdiv (fdiv (Fin 0) (Fin db)) (Fin 0) = NaN.
Proof.
  destruct (Req_dec_T db 0) as [->|Hdb].
  - now rewrite fdiv_zero_zero.
  - rewrite fdiv_fin by assumption.
    unfold fdiv, fsign. rewrite Reqb0_true by reflexivity.
    replace (0 / db) with 0 by (field; assumption).
    now rewrite Rltb_false by lra.
Qed.

Lemma map2_const {X Y Z : Type} (f : X -> Y -> Z) (c : Z) (l : list X) (m : list Y) :
  (forall x y, In x l -> f x y = c) ->
  length l = length m ->
  map2 f l m = repeat c (length l).
Proof.
  revert m; induction l as [|x l IH]; intros [|y m] Hf Hlen; simpl in *;
    try reflexivity; try discriminate.
  rewrite Hf by now left. f_equal. apply IH; [|lia].
  intros; apply Hf; now right.
Qed.

Lemma histogram_counts_all_nan (a : list float) (edges : list R) :
  Forall (fun x => x = NaN) a ->
  histogram_counts a edges = repeat 0%Z (length edges - 1).
Proof.
  intros Ha. unfold histogram_counts.
  now rewrite search_sorted_all_nan, Zdiff_repeat_zero.
Qed.

Lemma np_histogram_density_all_nan (a : list float) (edges : list R) :
  Forall (fun x => x = NaN) a ->
  np_histogram_density a edges = repeat NaN (length edges - 1).
Proof.
  intros Ha. unfold np_histogram_density.
  rewrite histogram_counts_all_nan by assumption.
  rewrite Zsum_repeat_zero.
  rewrite (map2_const _ NaN).
  - now rewrite repeat_length.
  - intros x y Hx. apply repeat_spec in Hx. subst x.
    apply density_of_zero_counts.
  - now rewrite repeat_length, np_diff_length.
Qed.

Lemma bins_length : length bins = 40%nat.
Proof. reflexivity. Qed.

Lemma centers_length : length centers = 39%nat.
Proof. reflexivity. Qed.

Lemma theoretical_curve_length (o : RiemannS) : length (theoretical_curve o) = 39%nat.
Proof. unfold theoretical_curve. now rewrite length_map, centers_length. Qed.

Lemma divergence_nan_head (h : list float) (q : R) (t : list R) :
  divergence (NaN :: h) (q :: t) = NaN.
Proof. reflexivity. Qed.

Lemma divergence_all_nan (o : RiemannS) :
  divergence (repeat NaN 39) (theoretical_curve o) = NaN.
Proof.
  pose proof (theoretical_curve_length o) as H.
  destruct (theoretical_curve o) as [|q t]; [discriminate|].
  apply divergence_nan_head.
Qed.

(** The unfolding of a constant sample: every spacing is 0/0. *)
Lemma unfold_constant (v : R) (n : nat) :
  _unfold (repeat v n) = repeat NaN (n - 1).
Proof.
  unfold _unfold.
  pose proof (np_diff_repeat v n) as Hz.
  pose proof (np_diff_length (repeat v n)) as Hlen.
  rewrite repeat_length in Hlen.
  destruct (length (np_diff (repeat v n)) =? 0)%nat eqn:E.
  - apply Nat.eqb_eq in E. rewrite <- Hlen, E. reflexivity.
  - rewrite (map_const _ NaN); [now rewrite Hlen|].
    intros d Hd. rewrite (proj1 (Forall_forall _ _) Hz d Hd).
    unfold np_mean. rewrite (Rsum_zero _ Hz).
    apply Nat.eqb_neq in E.
    rewrite fdiv_fin by (apply not_0_INR; exact E).
    replace (0 / _) with 0
      by (field; apply not_0_INR; exact E).
    apply fdiv_zero_zero.
Qed.

Lemma empirical_histogram_constant (v : R) (n : nat) :
  empirical_histogram (repeat v n) = repeat NaN 39.
Proof.
  unfold empirical_histogram. rewrite unfold_constant.
  rewrite np_histogram_density_all_nan.
  - now rewrite bins_length.
  - apply Forall_forall. intros x Hx. now apply repeat_spec in Hx.
Qed.

(** The scorer on fifty equal positive values: a result whose score is NaN. *)
Lemma analyze_integrity_ones50 (lbl : string) (w : world) :
  analyze_integrity ones50 lbl w =
  (Returned
     (Some {| label := lbl; score := NaN;
              spectrum := (centers, repeat NaN 39, theoretical_curve (self w)) |}),
   w).
Proof.
  rewrite analyze_integrity_long;
    unfold ones50; rewrite clean_data_repeat_pos by lra.
  - now rewrite empirical_histogram_constant, divergence_all_nan.
  - now rewrite repeat_length.
Qed.

Lemma scan_resonance_impulse50 (w : world) :
  scan_resonance impulse50 w =
  (Returned
     (Some {| label := scan_label (self w);
              score := NaN;
              spectrum := (centers, repeat NaN 39, theoretical_curve (self w)) |}),
   w).
Proof.
  rewrite scan_resonance_unfold by discriminate. unfold impulse50.
  rewrite resonance_transform_impulse. apply analyze_integrity_ones50.
Qed.

Lemma filter_head {X : Type} (p : X -> bool) (x : X) (l : list X) :
  filter p (x :: l) = if p x then x :: filter p l else filter p l.
Proof. reflexivity. Qed.

Lemma clean_data_impulse50 : clean_data impulse50 = [1].
Proof.
  unfold clean_data, impulse50.
  rewrite filter_head, Rltb_true by lra.
  rewrite filter_none; [reflexivity|].
  apply Forall_forall. intros x Hx. apply repeat_spec in Hx. subst.
  apply Rltb_false; lra.
Qed.

Lemma unfold_short (c : list R) : (length c < 2)%nat -> _unfold c = [].
Proof.
  intros H. unfold _unfold.
  pose proof (np_diff_length c) as Hl.
  replace (length (np_diff c)) with 0%nat by lia. reflexivity.
Qed.

Lemma bins_eq : bins = map bin_edge (seq 0 40).
Proof.
  unfold bins, linspace, bin_edge.
  cbv [seq map set_last Nat.ltb Nat.leb Nat.sub].
  rewrite !INR_IZR_INZ. cbn [Z.of_nat Pos.of_succ_nat Pos.succ].
  repeat (f_equal; try lra).

Qed.

Lemma centers_eq : centers = map (fun k => (2 * INR k + 1) / 26) (seq 0 39).
Proof.
  unfold centers. rewrite bins_eq. unfold bin_edge.
  cbv [seq map removelast tl map2].
  rewrite !INR_IZR_INZ. cbn [Z.of_nat Pos.of_succ_nat Pos.succ].
  repeat (f_equal; try lra).

Qed.

(** ** Unfolding a sample with non-degenerate spacings *)

Lemma np_diff_cons2 (a b : R) (l : list R) :
  np_diff (a :: b :: l) = (b - a) :: np_diff (b :: l).
Proof. reflexivity. Qed.

Lemma np_diff_nonneg (l : list R) :
  StronglySorted Rle l -> Forall (fun d => 0 <= d) (np_diff l).
Proof.
  induction 1 as [|a l Hs IH Ha]; [constructor|].
  destruct l as [|b l]; [constructor|].
  rewrite np_diff_cons2. constructor; [|exact IH].
  inversion Ha; subst. lra.
Qed.

Lemma Rsum_nonneg (l : list R) : Forall (fun d => 0 <= d) l -> 0 <= Rsum l.
Proof. induction 1; unfold Rsum in *; simpl; lra. Qed.

Lemma Rsum_pos (l : list R) :
  Forall (fun d => 0 <= d) l -> (exists d, In d l /\ d <> 0) -> 0 < Rsum l.
Proof.
  induction 1 as [|x l Hx Hl IH]; intros [d [Hin Hd]]; [destruct Hin|].
  pose proof (Rsum_nonneg l Hl) as Hn.
  unfold Rsum in *; simpl.
  destruct Hin as [->|Hin]; [lra|].
  assert (0 < fold_right Rplus 0 l) by (apply IH; eauto). lra.
Qed.

Lemma nondegenerate_length (c : list R) : nondegenerate c -> (2 <= length c)%nat.
Proof.
  intros [d [Hin _]].
  pose proof (np_diff_length c) as Hl.
  destruct (np_diff c); [destruct Hin|]. simpl in Hl. lia.
Qed.

Lemma mean_spacing_pos (c : list R) :
  StronglySorted Rle c -> nondegenerate c -> 0 < mean_spacing c.
Proof.
  intros Hs Hn. unfold mean_spacing.
  pose proof (nondegenerate_length c Hn) as Hlen.
  pose proof (np_diff_length c) as Hl.
  apply Rdiv_lt_0_compat.
  - apply Rsum_pos; [now apply np_diff_nonneg | exact Hn].
  - apply lt_0_INR. lia.
Qed.

Lemma unfold_nondegenerate (c : list R) :
  StronglySorted Rle c -> nondegenerate c ->
  _unfold c = map (fun d => Fin (d / mean_spacing c)) (np_diff c).
Proof.
  intros Hs Hn.
  pose proof (mean_spacing_pos c Hs Hn) as Hm.
  pose proof (nondegenerate_length c Hn) as Hlen.
  pose proof (np_diff_length c) as Hl.
  unfold _unfold.
  replace (length (np_diff c) =? 0)%nat with false
    by (symmetry; apply Nat.eqb_neq; lia).
  apply map_ext. intros d. unfold np_mean.
  rewrite fdiv_fin by (apply not_0_INR; lia).
  fold (mean_spacing c). apply fdiv_fin; lra.
Qed.

Lemma np_sum_fin (l : list R) : np_sum (map Fin l) = Fin (Rsum l).
Proof.
  induction l as [|x l IH]; [reflexivity|].
  unfold np_sum in *. cbn [map fold_right]. rewrite IH. reflexivity.
Qed.

Lemma Rsum_map_div (m : R) (l : list R) :
  Rsum (map (fun d => d / m) l) = Rsum l / m.
Proof.
  induction l as [|x l IH]; unfold Rsum in *; simpl.
  - unfold Rdiv; ring.
  - rewrite IH. unfold Rdiv; ring.
Qed.

Lemma unfold_mean_one (c : list R) :
  StronglySorted Rle c -> nondegenerate c ->
  fmean (_unfold c) = Fin 1 /\ length (_unfold c) = (length c - 1)%nat.
Proof.
  intros Hs Hn.
  pose proof (mean_spacing_pos c Hs Hn) as Hm.
  pose proof (nondegenerate_length c Hn) as Hlen.
  pose proof (np_diff_length c) as Hl.
  rewrite unfold_nondegenerate by assumption.
  split; [|now rewrite length_map].
  unfold fmean.
  rewrite <- (map_map (fun d => d / mean_spacing c) Fin).
  rewrite np_sum_fin, !length_map, Rsum_map_div.
  assert (Hnz : INR (length (np_diff c)) <> 0) by (apply not_0_INR; lia).
  rewrite fdiv_fin by assumption.
  f_equal. unfold mean_spacing in *.
  assert (Rsum (np_diff c) <> 0).
  { intros E. rewrite E in Hm. unfold Rdiv in Hm. lra. }
  field. split; assumption.
Qed.

(** ** Histogram counts *)

Lemma Zdiff_cons2 (a b : Z) (l : list Z) :
  Zdiff (a :: b :: l) = (b - a)%Z :: Zdiff (b :: l).
Proof. reflexivity. Qed.

Lemma Zdiff_length (l : list Z) : length (Zdiff l) = (length l - 1)%nat.
Proof.
  induction l as [|a l IH]; [reflexivity|].
  destruct l as [|b l]; [reflexivity|].
  rewrite Zdiff_cons2. simpl length in *. lia.
Qed.

Lemma last_cons_default {X : Type} (y x : X) (l : list X) :
  last (y :: l) x = last l y.
Proof.
  revert x y; induction l as [|z l IH]; intros x y; [reflexivity|].
  change (last (y :: z :: l) x) with (last (z :: l) x).
  now rewrite (IH x z), (IH y z).
Qed.

(** The counts telescope: their total is the last cumulative count minus
    the first. *)
Lemma Zsum_Zdiff (x : Z) (l : list Z) :
  Zsum (Zdiff (x :: l)) = (last l x - x)%Z.
Proof.
  revert x; induction l as [|y l IH]; intros x.
  - simpl. lia.
  - rewrite Zdiff_cons2. unfold Zsum in *. cbn [fold_right].
    rewrite IH, (last_cons_default y x). lia.
Qed.

Lemma search_sorted_cons2 (a : list float) (e e' : R) (edges : list R) :
  search_sorted_inclusive a (e :: e' :: edges)
  = searchsorted_left a e :: search_sorted_inclusive a (e' :: edges).
Proof. reflexivity. Qed.

Lemma search_sorted_length (a : list float) (edges : list R) :
  length (search_sorted_inclusive a edges) = length edges.
Proof.
  induction edges as [|e edges IH]; [reflexivity|].
  destruct edges as [|e' edges]; [reflexivity|].
  rewrite search_sorted_cons2. simpl length in *. lia.
Qed.

Lemma search_sorted_last (a : list float) (e : R) (edges : list R) (d : Z) :
  last (search_sorted_inclusive a (e :: edges)) d
  = searchsorted_right a (last edges e).
Proof.
  revert e d; induction edges as [|e' edges IH]; intros e d; [reflexivity|].
  rewrite search_sorted_cons2.
  rewrite last_cons_default, IH. now rewrite (last_cons_default e' e).
Qed.

Lemma histogram_counts_length (a : list float) (edges : list R) :
  length (histogram_counts a edges) = (length edges - 1)%nat.
Proof.
  unfold histogram_counts. now rewrite Zdiff_length, search_sorted_length.
Qed.

Lemma histogram_counts_total (a : list float) (e e' : R) (edges : list R) :
  Zsum (histogram_counts a (e :: e' :: edges))
  = (searchsorted_right a (last edges e') - searchsorted_left a e)%Z.
Proof.
  unfold histogram_counts. rewrite search_sorted_cons2, Zsum_Zdiff.
  pose proof (search_sorted_length a (e' :: edges)) as Hl.
  destruct (search_sorted_inclusive a (e' :: edges)) as [|c cs] eqn:E;
    [discriminate|].
  rewrite (last_cons_default c _ cs), <- (last_cons_default c 0%Z cs), <- E.
  now rewrite search_sorted_last.
Qed.

Lemma count_if_mono {X : Type} (p q : X -> bool) (l : list X) :
  (forall x, p x = true -> q x = true) -> (count_if p l <= count_if q l)%Z.
Proof.
  intros H. unfold count_if. apply inj_le.
  induction l as [|x l IH]; simpl; [lia|].
  destruct (p x) eqn:E.
  - rewrite (H x E). simpl. lia.
  - destruct (q x); simpl; lia.
Qed.


Lemma flt_mono (x : float) (u v : R) : u <= v -> flt x u = true -> flt x v = true.
Proof.
  destruct x; simpl; auto. rewrite !Rltb_spec. lra.
Qed.

Lemma flt_fle (x : float) (u v : R) : u <= v -> flt x u = true -> fle x v = true.
Proof.
  destruct x; simpl; auto. rewrite Rltb_spec, Rleb_spec. lra.
Qed.

Lemma search_sorted_head_le (a : list float) (e e' : R) (edges : list R) (d : Z) :
  e <= e' ->
  (searchsorted_left a e <= hd d (search_sorted_inclusive a (e' :: edges)))%Z.
Proof.
  intros H. destruct edges as [|e'' edges].
  - simpl. apply count_if_mono. intros x. now apply flt_fle.
  - rewrite search_sorted_cons2. simpl. apply count_if_mono.
    intros x. now apply flt_mono.
Qed.

Lemma histogram_counts_nonneg (a : list float) (edges : list R) :
  StronglySorted Rle edges ->
  Forall (fun n => (0 <= n)%Z) (histogram_counts a edges).
Proof.
  unfold histogram_counts.
  induction 1 as [|e edges Hs IH He]; [constructor|].
  destruct edges as [|e' edges]; [constructor|].
  rewrite search_sorted_cons2.
  pose proof (search_sorted_head_le a e e' edges 0%Z) as Hh.
  pose proof (search_sorted_length a (e' :: edges)) as Hl.
  destruct (search_sorted_inclusive a (e' :: edges)) as [|c cs] eqn:E;
    [discriminate|].
  rewrite Zdiff_cons2. constructor; [|exact IH].
  simpl in Hh. inversion He; subst. specialize (Hh H1). lia.
Qed.

(** ** The bins of [analyze_integrity] *)

Lemma bin_edge_S (k : nat) : bin_edge (S k) = bin_edge k + 1 / 13.
Proof. unfold bin_edge. rewrite S_INR. field. Qed.

Lemma bin_edges_sorted (a n : nat) : StronglySorted Rle (map bin_edge (seq a n)).
Proof.
  revert a; induction n as [|n IH]; intros a; simpl; constructor; [apply IH|].
  apply Forall_forall. intros x Hx. apply in_map_iff in Hx.
  destruct Hx as [k [<- Hk]]. apply in_seq in Hk.
  unfold bin_edge. apply Rmult_le_compat_r; [lra|]. apply le_INR. lia.
Qed.

Lemma bins_sorted : StronglySorted Rle bins.
Proof. rewrite bins_eq. apply bin_edges_sorted. Qed.

Lemma np_diff_bin_edges (a n : nat) :
  np_diff (map bin_edge (seq a n)) = repeat (1 / 13) (n - 1).
Proof.
  revert a; induction n as [|n IH]; intros a; [reflexivity|].
  destruct n as [|n]; [reflexivity|].
  change (seq a (S (S n))) with (a :: S a :: seq (S (S a)) n).
  cbn [map]. rewrite np_diff_cons2.
  change (bin_edge (S a) :: map bin_edge (seq (S (S a)) n))
    with (map bin_edge (seq (S a) (S n))).
  rewrite IH. simpl. rewrite Nat.sub_0_r. f_equal.
  rewrite bin_edge_S. ring.
Qed.

Lemma np_diff_bins : np_diff bins = repeat (1 / 13) 39.
Proof. rewrite bins_eq. apply np_diff_bin_edges. Qed.

Lemma bins_cons : bins = 0 :: (1 / 13) :: map bin_edge (seq 2 38).
Proof.
  rewrite bins_eq. change (seq 0 40) with (0 :: 1 :: seq 2 38)%nat.
  cbn [map]. apply f_equal2; [unfold bin_edge; simpl; lra|].
  apply f_equal2; [unfold bin_edge; simpl; lra | reflexivity].
Qed.

Lemma bins_last : last (map bin_edge (seq 2 38)) (1 / 13) = 3.
Proof.
  cbv [seq map last]. unfold bin_edge. rewrite INR_IZR_INZ.
  cbn [Z.of_nat Pos.of_succ_nat Pos.succ]. lra.
Qed.

(** The total count is the number of cells in the closed range [0, 3]. *)
Lemma histogram_total_bins (a : list float) :
  Zsum (histogram_counts a bins)
  = (searchsorted_right a 3 - searchsorted_left a 0)%Z.
Proof.
  rewrite bins_cons, histogram_counts_total, bins_last. reflexivity.
Qed.

(** ** The empirical histogram of a non-degenerate sample *)

Lemma Rdiv_nonneg (a b : R) : 0 <= a -> 0 < b -> 0 <= a / b.
Proof.
  intros Ha Hb. unfold Rdiv. apply Rmult_le_pos; [assumption|].
  left. now apply Rinv_0_lt_compat.
Qed.

Lemma Rsum_above (m : R) (l : list R) :
  l <> [] -> Forall (fun d => m < d) l -> INR (length l) * m < Rsum l.
Proof.
  intros Hne H. induction H as [|x l Hx Hl IH]; [contradiction|].
  unfold Rsum in *. cbn [fold_right length]. rewrite S_INR.
  destruct l as [|y l].
  - simpl. lra.
  - assert (INR (length (y :: l)) * m < fold_right Rplus 0 (y :: l))
      by (apply IH; discriminate).
    lra.
Qed.

(** Some element of a non-empty list is at most the mean. *)
Lemma exists_le_mean (l : list R) :
  l <> [] -> exists d, In d l /\ d <= Rsum l / INR (length l).
Proof.
  intros Hne. set (m := Rsum l / INR (length l)).
  destruct (Forall_Exists_dec (fun d => m < d) (fun d => Rlt_dec m d) l)
    as [Hall|Hex].
  - exfalso. pose proof (Rsum_above m l Hne Hall) as H.
    assert (Hn : 0 < INR (length l)).
    { apply lt_0_INR. destruct l; [contradiction | simpl; lia]. }
    unfold m in H. replace (INR (length l) * (Rsum l / INR (length l)))
      with (Rsum l) in H by (field; lra). lra.
  - apply Exists_exists in Hex. destruct Hex as [d [Hin Hd]].
    exists d. split; [assumption | lra].
Qed.

Lemma count_if_pos {X : Type} (p : X -> bool) (l : list X) (x : X) :
  In x l -> p x = true -> (1 <= count_if p l)%Z.
Proof.
  intros Hin Hp. unfold count_if.
  assert (In x (filter p l)) as H by (apply filter_In; now split).
  destruct (filter p l); [destruct H | simpl; lia].
Qed.

Lemma density_cells (T : Z) (w : R) (l : list Z) :
  w <> 0 -> IZR T <> 0 ->
  map2 (fun ni dbi => fdiv (fdiv (Fin (IZR ni)) (Fin dbi)) (Fin (IZR T)))
       l (repeat w (length l))
  = map (fun n => Fin (IZR n / w / IZR T)) l.
Proof.
  intros Hw HT. induction l as [|n l IH]; [reflexivity|].
  cbn [length repeat map2 map]. rewrite IH. f_equal.
  rewrite fdiv_fin by assumption. now apply fdiv_fin.
Qed.

Section NonDegenerate.

Variable c : list R.
Hypothesis c_sorted : StronglySorted Rle c.
Hypothesis c_nondegenerate : nondegenerate c.

Let m := mean_spacing c.
Let s := _unfold c.
Let N := Zsum (histogram_counts s bins).

Lemma spacings_eq : s = map (fun d => Fin (d / m)) (np_diff c).
Proof. now apply unfold_nondegenerate. Qed.

Lemma histogram_total_pos : (1 <= N)%Z.
Proof.
  pose proof (mean_spacing_pos c c_sorted c_nondegenerate) as Hm.
  fold m in Hm.
  pose proof (np_diff_nonneg c c_sorted) as Hd.
  unfold N. rewrite histogram_total_bins, spacings_eq.
  assert (H0 : searchsorted_left (map (fun d => Fin (d / m)) (np_diff c)) 0 = 0%Z).
  { apply count_if_none. apply Forall_forall. intros x Hx.
    apply in_map_iff in Hx. destruct Hx as [d [<- Hin]].
    rewrite Forall_forall in Hd. specialize (Hd d Hin).
    simpl. apply Rltb_false. apply Rdiv_nonneg; lra. }
  rewrite H0.
  destruct (exists_le_mean (np_diff c)) as [d [Hin Hle]].
  { destruct c_nondegenerate as [d [Hin _]]. intros E. now rewrite E in Hin. }
  fold (mean_spacing c) in Hle. fold m in Hle.
  assert (1 <= searchsorted_right (map (fun d => Fin (d / m)) (np_diff c)) 3)%Z.
  { apply (count_if_pos _ _ (Fin (d / m))).
    - apply in_map_iff. now exists d.
    - simpl. apply Rleb_true.
      apply Rle_trans with 1; [|lra].
      apply Rmult_le_reg_r with m; [lra|].
      unfold Rdiv. rewrite Rmult_assoc, Rinv_l by lra. lra. }
  lia.
Qed.

(** Each density is finite: count / width / total. *)
Lemma empirical_histogram_fin :
  empirical_histogram c
  = map (fun n => Fin (IZR n / (1 / 13) / IZR N)) (histogram_counts s bins).
Proof.
  pose proof histogram_total_pos as HN.
  unfold empirical_histogram, np_histogram_density. fold s. fold N.
  rewrite np_diff_bins.
  pose proof (histogram_counts_length s bins) as Hl.
  rewrite bins_length in Hl. change (40 - 1)%nat with 39%nat in Hl.
  rewrite <- Hl.
  apply density_cells; [lra|]. apply not_0_IZR. lia.
Qed.

Lemma Rsum_density (l : list Z) :
  Rsum (map (fun n => IZR n / (1 / 13) / IZR N) l)
  = IZR (Zsum l) * 13 / IZR N.
Proof.
  pose proof histogram_total_pos as HN.
  assert (IZR N <> 0) by (apply not_0_IZR; lia).
  induction l as [|n l IH]; unfold Rsum, Zsum in *; cbn [map fold_right].
  - unfold Rdiv; ring.
  - rewrite IH, plus_IZR. field. assumption.
Qed.

Lemma empirical_histogram_sum :
  np_sum (empirical_histogram c) = Fin 13.
Proof.
  pose proof histogram_total_pos as HN.
  rewrite empirical_histogram_fin.
  rewrite <- (map_map (fun n => IZR n / (1 / 13) / IZR N) Fin).
  rewrite np_sum_fin, Rsum_density. fold N. f_equal.
  field. apply not_0_IZR. lia.
Qed.

Lemma empirical_histogram_nonneg :
  Forall (fun n => 0 <= IZR n / (1 / 13) / IZR N) (histogram_counts s bins).
Proof.
  pose proof histogram_total_pos as HN.
  eapply Forall_impl; [|apply histogram_counts_nonneg, bins_sorted].
  intros n Hn. cbv beta in Hn.
  apply Rdiv_nonneg; [apply Rdiv_nonneg|].
  - now apply IZR_le.
  - lra.
  - apply IZR_lt. lia.
Qed.

End NonDegenerate.

(** ** The divergence of finite histograms *)

Lemma epsilon_pos : 0 < epsilon.
Proof. unfold epsilon. apply Rdiv_lt_0_compat; [lra|]. apply pow_lt; lra. Qed.

Lemma rel_entr_fin (p q : R) :
  0 < p -> 0 < q -> rel_entr (Fin p) (Fin q) = Fin (p * ln (p / q)).
Proof.
  intros Hp Hq. unfold rel_entr, fsign. cbn [isnan orb].
  rewrite !Rltb_true by assumption.
  rewrite fdiv_fin by lra. unfold flog.
  rewrite Rltb_true by (apply Rdiv_lt_0_compat; assumption).
  reflexivity.
Qed.

Lemma divergence_fin (hs qs : list R) :
  Forall (fun h => 0 <= h) hs -> Forall (fun q => 0 <= q) qs ->
  divergence (map Fin hs) qs = Fin (kl_sum hs qs).
Proof.
  pose proof epsilon_pos as He.
  intros Hh; revert qs. unfold divergence, kl_sum, np_sum, Rsum.
  induction Hh as [|h hs Hh0 _ IH]; intros qs Hq; [reflexivity|].
  destruct Hq as [|q qs Hq0 Hq]; [reflexivity|].
  cbn [map map2 fold_right]. rewrite IH by assumption.
  cbn [fadd]. rewrite rel_entr_fin by lra. reflexivity.
Qed.

Lemma ln_le_minus_1 (y : R) : 0 < y -> ln y <= y - 1.
Proof.
  intros Hy. pose proof (exp_ineq1_le (ln y)) as H.
  rewrite exp_ln in H by assumption. lra.
Qed.

(** Gibbs' inequality in the unnormalised form: [p ln (p/q) >= p - q]. *)
Lemma rel_entr_lower (p q : R) : 0 < p -> 0 < q -> p - q <= p * ln (p / q).
Proof.
  intros Hp Hq.
  assert (H : ln (q / p) <= q / p - 1)
    by (apply ln_le_minus_1, Rdiv_lt_0_compat; assumption).
  replace (p / q) with (/ (q / p)) by (field; lra).
  rewrite ln_Rinv by (apply Rdiv_lt_0_compat; assumption).
  assert (p * ln (q / p) <= p * (q / p - 1))
    by (apply Rmult_le_compat_l; lra).
  replace (p * (q / p - 1)) with (q - p) in H0 by (field; lra).
  lra.
Qed.

Lemma kl_sum_lower (hs qs : list R) :
  Forall (fun h => 0 <= h) hs -> Forall (fun q => 0 <= q) qs ->
  length hs = length qs ->
  Rsum hs - Rsum qs <= kl_sum hs qs.
Proof.
  pose proof epsilon_pos as He.
  intros Hh; revert qs. unfold kl_sum, Rsum.
  induction Hh as [|h hs Hh0 _ IH]; intros qs Hq Hlen.
  - destruct qs; [simpl; lra | discriminate].
  - destruct Hq as [|q qs Hq0 Hq]; [discriminate|].
    cbn [map2 fold_right]. simpl in Hlen.
    specialize (IH qs Hq ltac:(lia)).
    pose proof (rel_entr_lower (h + epsilon) (q + epsilon)). lra.
Qed.

Lemma wigner_dyson_nonneg (a b s : R) : 0 <= a -> 0 <= wigner_dyson a b s.
Proof.
  intros Ha. unfold wigner_dyson.
  apply Rmult_le_pos; [apply Rmult_le_pos|]; [assumption | | left; apply exp_pos].
  replace (s ^ 2) with (s * s) by ring. apply Rle_0_sqr.
Qed.

Lemma init_A_pos : 0 < A __init__.
Proof.
  cbn [A __init__]. apply Rdiv_lt_0_compat; [lra|]. apply pow_lt, PI_RGT_0.
Qed.

Lemma theoretical_curve_nonneg :
  Forall (fun q => 0 <= q) (theoretical_curve __init__).
Proof.
  unfold theoretical_curve. apply Forall_forall. intros q Hq.
  apply in_map_iff in Hq. destruct Hq as [s [<- _]].
  apply wigner_dyson_nonneg. left. apply init_A_pos.
Qed.

Lemma score_of_fin (d : R) : score_of (Fin d) = Fin (100 * exp (- d)).
Proof. reflexivity. Qed.


(** ** A certified bound on the midpoint sum of the Wigner-Dyson density *)

Lemma PI_bounds : 314159 / 100000 < PI < 31416 / 10000.
Proof.
  pose proof (PI_2_3_7_ineq 2) as H.
  unfold sum_f_R0, tg_alt, PI_2_3_7_tg, Ratan_seq in H.
  simpl in H. lra.
Qed.

Lemma Zfloor_le (a b : Z) : (0 < b)%Z -> IZR (a / b) <= IZR a / IZR b.
Proof.
  intros Hb. assert (Hb' : 0 < IZR b) by now apply IZR_lt.
  apply Rmult_le_reg_r with (IZR b); [assumption|].
  unfold Rdiv. rewrite Rmult_assoc, Rinv_l, Rmult_1_r by lra.
  rewrite <- mult_IZR. apply IZR_le.
  rewrite Z.mul_comm. now apply Z.mul_div_le.
Qed.

Lemma Zfloor_succ_gt (a b : Z) : (0 < b)%Z -> IZR a / IZR b < IZR (a / b + 1).
Proof.
  intros Hb. assert (Hb' : 0 < IZR b) by now apply IZR_lt.
  apply Rmult_lt_reg_r with (IZR b); [assumption|].
  unfold Rdiv. rewrite Rmult_assoc, Rinv_l, Rmult_1_r by lra.
  rewrite <- mult_IZR. apply IZR_lt.
  rewrite Z.mul_comm. now apply Z.mul_succ_div_gt.
Qed.

Section FixedPoint.

Variable scale : Z.
Hypothesis scale_pos : (0 < scale)%Z.

Let s := IZR scale.

Lemma s_pos : 0 < s.
Proof. now apply IZR_lt. Qed.

Lemma square_down_sound (j : nat) :
  forall (y : Z) (t : R),
    (scale <= y)%Z ->
    IZR y / s <= exp t ->
    (scale <= square_down scale j y)%Z
    /\ IZR (square_down scale j y) / s <= exp (2 ^ j * t).
Proof.
  pose proof s_pos as Hs.
  induction j as [|j IH]; intros y t Hy Hle.
  - simpl. split; [assumption|]. now rewrite Rmult_1_l.
  - cbn [square_down].
    assert (Hy' : (scale <= y * y / scale)%Z).
    { apply Z.div_le_lower_bound; [assumption|]. nia. }
    destruct (IH (y * y / scale)%Z (2 * t) Hy') as [H1 H2].
    + apply Rle_trans with ((IZR y / s) * (IZR y / s)).
      * apply Rle_trans with (IZR (y * y) / s / s).
        -- apply Rmult_le_compat_r; [left; now apply Rinv_0_lt_compat|].
           now apply Zfloor_le.
        -- rewrite mult_IZR. right. field. lra.
      * replace (2 * t) with (t + t) by ring. rewrite exp_plus.
        assert (0 <= IZR y / s).
        { apply Rdiv_nonneg; [|assumption]. apply IZR_le. lia. }
        apply Rmult_le_compat; assumption.
    + split; [assumption|].
      replace (2 ^ S j * t) with (2 ^ j * (2 * t)) by (simpl; ring).
      assumption.
Qed.

Lemma exp_lower_sound (j : nat) (xn xd : Z) :
  (0 <= xn)%Z -> (0 < xd)%Z ->
  (scale <= exp_lower scale j xn xd)%Z
  /\ IZR (exp_lower scale j xn xd) / s <= exp (IZR xn / IZR xd).
Proof.
  pose proof s_pos as Hs.
  intros Hn Hd. unfold exp_lower.
  set (p := (2 ^ Z.of_nat j)%Z).
  assert (Hp : (0 < p)%Z) by (apply Z.pow_pos_nonneg; lia).
  assert (Hp' : IZR p = 2 ^ j).
  { unfold p. rewrite <- pow_IZR. reflexivity. }
  assert (H2 : 0 < 2 ^ j) by (apply pow_lt; lra).
  assert (Hd' : 0 < IZR xd) by now apply IZR_lt.
  set (t := IZR xn / IZR xd / 2 ^ j).
  destruct (square_down_sound j (scale + xn * scale / (xd * p))%Z t) as [H3 H4].
  - assert (0 <= xn * scale / (xd * p))%Z by (apply Z.div_pos; nia). lia.
  - apply Rle_trans with (1 + t); [|apply exp_ineq1_le].
    rewrite plus_IZR. fold s.
    assert (IZR (xn * scale / (xd * p)) <= IZR (xn * scale) / IZR (xd * p))
      by (apply Zfloor_le; nia).
    rewrite !mult_IZR, Hp' in H. fold s in H.
    unfold t.
    apply Rmult_le_reg_r with s; [assumption|].
    replace ((s + IZR (xn * scale / (xd * p))) / s * s)
      with (s + IZR (xn * scale / (xd * p))) by (field; lra).
    replace ((1 + IZR xn / IZR xd / 2 ^ j) * s)
      with (s + IZR xn * s / (IZR xd * 2 ^ j)) by (field; lra).
    lra.
  - split; [assumption|].
    replace (IZR xn / IZR xd) with (2 ^ j * t); [assumption|].
    unfold t. field. lra.
Qed.

End FixedPoint.

Section TermBound.

Variables scale prec : Z.
Variable j : nat.
Hypothesis scale_pos : (0 < scale)%Z.
Hypothesis prec_pos : (0 < prec)%Z.

Lemma wigner_term_bound (k : nat) :
  wigner_dyson (32 / PI ^ 2) (4 / PI) ((2 * INR k + 1) / 26)
  <= 32 / (314159 / 100000) ^ 2 / 676 / IZR prec
     * IZR (wigner_term_upper scale prec j 31416 10000 (Z.of_nat k)).
Proof.
  pose proof PI_bounds as [Hpl Hph].
  unfold wigner_term_upper. cbv zeta.
  set (oz := (2 * Z.of_nat k + 1)%Z).
  set (y := exp_lower scale j (4 * oz * oz * 10000) (676 * 31416)).
  assert (Hoz : (1 <= oz)%Z) by (unfold oz; lia).
  assert (Ho : 2 * INR k + 1 = IZR oz).
  { unfold oz. rewrite plus_IZR, mult_IZR, <- INR_IZR_INZ. reflexivity. }
  rewrite Ho.
  assert (Ho1 : 1 <= IZR oz) by now apply IZR_le.
  destruct (exp_lower_sound scale scale_pos j (4 * oz * oz * 10000) (676 * 31416))
    as [Hy1 Hy2]; [nia | lia |].
  fold y in Hy1, Hy2.
  assert (Hs : 0 < IZR scale) by now apply IZR_lt.
  assert (Hp : 0 < IZR prec) by now apply IZR_lt.
  assert (Hy : 0 < IZR y) by (apply IZR_lt; lia).
  (* the exponential factor *)
  set (x := IZR (4 * oz * oz * 10000) / IZR (676 * 31416)) in Hy2.
  assert (Hx : x <= 4 / PI * (IZR oz / 26) ^ 2).
  { unfold x. rewrite !mult_IZR.
    replace (IZR 4 * IZR oz * IZR oz * IZR 10000 / (IZR 676 * IZR 31416))
      with (4 / (31416 / 10000) * (IZR oz / 26) ^ 2) by (field; lra).
    apply Rmult_le_compat_r.
    - apply pow2_ge_0.
    - unfold Rdiv. apply Rmult_le_compat_l; [lra|].
      apply Rinv_le_contravar; lra. }
  assert (HE : exp (- (4 / PI) * (IZR oz / 26) ^ 2) <= IZR scale / IZR y).
  { apply Rle_trans with (exp (- x)).
    - destruct Hx as [Hx|Hx].
      + left. apply exp_increasing. lra.
      + right. f_equal. lra.
    - rewrite exp_Ropp.
      replace (IZR scale / IZR y) with (/ (IZR y / IZR scale)) by (field; lra).
      apply Rinv_le_contravar; [|assumption].
      apply Rdiv_lt_0_compat; assumption. }
  (* the integer ceiling *)
  assert (HU : IZR oz * IZR oz * IZR scale / IZR y
               <= IZR (oz * oz * scale * prec / y + 1) / IZR prec).
  { pose proof (Zfloor_succ_gt (oz * oz * scale * prec) y ltac:(lia)) as H.
    rewrite !mult_IZR in H.
    apply Rmult_le_reg_r with (IZR prec); [assumption|].
    replace (IZR (oz * oz * scale * prec / y + 1) / IZR prec * IZR prec)
      with (IZR (oz * oz * scale * prec / y + 1)) by (field; lra).
    left. eapply Rle_lt_trans; [|exact H]. right. field. lra. }
  unfold wigner_dyson.
  set (E := exp (- (4 / PI) * (IZR oz / 26) ^ 2)) in *.
  assert (HE0 : 0 < E) by apply exp_pos.
  assert (HA : 32 / PI ^ 2 <= 32 / (314159 / 100000) ^ 2).
  { unfold Rdiv. apply Rmult_le_compat_l; [lra|].
    apply Rinv_le_contravar; [nra | nra]. }
  assert (HA0 : 0 < 32 / PI ^ 2).
  { apply Rdiv_lt_0_compat; [lra|]. apply pow_lt; lra. }
  apply Rle_trans with (32 / (314159 / 100000) ^ 2 * (IZR oz / 26) ^ 2
                        * (IZR scale / IZR y)).
  - apply Rmult_le_compat; try lra.
    + apply Rmult_le_pos; [lra | apply pow2_ge_0].
    + apply Rmult_le_compat_r; [apply pow2_ge_0 | assumption].
  - replace (32 / (314159 / 100000) ^ 2 * (IZR oz / 26) ^ 2 * (IZR scale / IZR y))
      with (32 / (314159 / 100000) ^ 2 / 676
            * (IZR oz * IZR oz * IZR scale / IZR y)) by (field; lra).
    replace (32 / (314159 / 100000) ^ 2 / 676 / IZR prec *
             IZR (oz * oz * scale * prec / y + 1))
      with (32 / (314159 / 100000) ^ 2 / 676
            * (IZR (oz * oz * scale * prec / y + 1) / IZR prec)) by (field; lra).
    apply Rmult_le_compat_l; [|assumption].
    apply Rdiv_nonneg; [|lra]. apply Rdiv_nonneg; [lra|]. nra.
Qed.

End TermBound.

Lemma Rsum_map_le {X : Type} (f g : X -> R) (l : list X) :
  (forall x, In x l -> f x <= g x) -> Rsum (map f l) <= Rsum (map g l).
Proof.
  induction l as [|x l IH]; intros H; unfold Rsum in *; cbn [map fold_right].
  - lra.
  - assert (f x <= g x) by (apply H; now left).
    assert (fold_right Rplus 0 (map f l) <= fold_right Rplus 0 (map g l))
      by (apply IH; intros; apply H; now right).
    lra.
Qed.

Lemma Rsum_map_scaled {X : Type} (a : R) (u : X -> Z) (l : list X) :
  Rsum (map (fun x => a * IZR (u x)) l) = a * IZR (Zsum (map u l)).
Proof.
  induction l as [|x l IH]; unfold Rsum, Zsum in *; cbn [map fold_right].
  - simpl. ring.
  - rewrite IH, plus_IZR. ring.
Qed.

(** The integer side of the bound, computed. *)
Lemma wigner_upper_total :
  (32 * 100000 ^ 2
   * Zsum (map (fun k => wigner_term_upper fx_scale fx_prec fx_steps 31416 10000
                           (Z.of_nat k)) (seq 0 39))
   < 13 * 676 * 314159 ^ 2 * fx_prec)%Z.
Proof. vm_compute. reflexivity. Qed.

Lemma theoretical_curve_init :
  theoretical_curve __init__
  = map (fun k => wigner_dyson (32 / PI ^ 2) (4 / PI) ((2 * INR k + 1) / 26))
        (seq 0 39).
Proof.
  unfold theoretical_curve. rewrite centers_eq, map_map. reflexivity.
Qed.

Lemma wigner_midpoint_sum : Rsum (theoretical_curve __init__) < 13.
Proof.
  rewrite theoretical_curve_init.
  eapply Rle_lt_trans.
  - apply Rsum_map_le. intros k _.
    apply (wigner_term_bound fx_scale fx_prec fx_steps); reflexivity.
  - rewrite (Rsum_map_scaled _
               (fun k => wigner_term_upper fx_scale fx_prec fx_steps 31416 10000
                           (Z.of_nat k))).
    pose proof wigner_upper_total as H.
    apply IZR_lt in H.
    set (z := Zsum _) in *.
    rewrite !mult_IZR in H.
    change (IZR (100000 ^ 2)) with (IZR 10000000000) in H.
    change (IZR (314159 ^ 2)) with (IZR 98695877281) in H.
    change fx_prec with 1000000000000%Z in *.
    lra.
Qed.

Section Score.

Variable c : list R.
Hypothesis c_sorted : StronglySorted Rle c.
Hypothesis c_nondegenerate : nondegenerate c.

Lemma divergence_nondegenerate :
  exists d, divergence (empirical_histogram c) (theoretical_curve __init__) = Fin d
            /\ 0 < d.
Proof.
  set (N := Zsum (histogram_counts (_unfold c) bins)).
  set (hs := map (fun n => IZR n / (1 / 13) / IZR N)
                 (histogram_counts (_unfold c) bins)).
  assert (Heq : empirical_histogram c = map Fin hs).
  { unfold hs. rewrite map_map. now apply empirical_histogram_fin. }
  assert (Hnn : Forall (fun h => 0 <= h) hs).
  { unfold hs. apply Forall_forall. intros h Hh.
    apply in_map_iff in Hh. destruct Hh as [n [<- Hn]].
    pose proof (empirical_histogram_nonneg c c_sorted c_nondegenerate) as H.
    rewrite Forall_forall in H. now apply H. }
  assert (Hsum : Rsum hs = 13).
  { pose proof (empirical_histogram_sum c c_sorted c_nondegenerate) as H.
    rewrite Heq, np_sum_fin in H. now injection H. }
  assert (Hlen : length hs = length (theoretical_curve __init__)).
  { unfold hs. rewrite length_map, histogram_counts_length, bins_length.
    now rewrite theoretical_curve_length. }
  exists (kl_sum hs (theoretical_curve __init__)). split.
  - rewrite Heq. apply divergence_fin; [assumption|].
    apply theoretical_curve_nonneg.
  - pose proof (kl_sum_lower hs _ Hnn theoretical_curve_nonneg Hlen).
    pose proof wigner_midpoint_sum. lra.
Qed.

End Score.

(** ** The transform of [scan_resonance], coefficient by coefficient *)

Lemma Cadd_assoc (x y z : C) : Cadd x (Cadd y z) = Cadd (Cadd x y) z.
Proof. unfold Cadd; simpl; f_equal; ring. Qed.

Lemma Cadd_0_l (z : C) : Cadd (0, 0) z = z.
Proof. destruct z; unfold Cadd; simpl; f_equal; ring. Qed.

Lemma Cadd_0_r (z : C) : Cadd z (0, 0) = z.
Proof. destruct z; unfold Cadd; simpl; f_equal; ring. Qed.

Lemma Csum_upto_ext (f g : nat -> C) (n : nat) :
  (forall t, (t < n)%nat -> f t = g t) -> Csum_upto f n = Csum_upto g n.
Proof.
  induction n as [|n IH]; intros H; [reflexivity|].
  simpl. rewrite IH, H by auto with arith. reflexivity.
Qed.

Lemma Csum_upto_shift (f : nat -> C) (n : nat) :
  Csum_upto f (S n) = Cadd (f 0%nat) (Csum_upto (fun t => f (S t)) n).
Proof.
  induction n as [|n IH].
  - simpl. now rewrite Cadd_0_l, Cadd_0_r.
  - change (Csum_upto f (S (S n))) with (Cadd (Csum_upto f (S n)) (f (S n))).
    rewrite IH. cbn [Csum_upto]. now rewrite Cadd_assoc.
Qed.

Lemma Csum_map2_seq (g : nat -> C -> C) (zs : list C) (a : nat) :
  Csum (map2 g (seq a (length zs)) zs)
  = Csum_upto (fun t => g (a + t)%nat (nth t zs (0, 0))) (length zs).
Proof.
  revert a; induction zs as [|z zs IH]; intros a; [reflexivity|].
  cbn [length seq map2 Csum fold_right].
  fold (Csum (map2 g (seq (S a) (length zs)) zs)).
  rewrite IH, Csum_upto_shift. cbn [nth]. rewrite Nat.add_0_r.
  f_equal. apply Csum_upto_ext. intros t _. now rewrite Nat.add_succ_r.
Qed.

Lemma nth_map2 {X Y Z : Type} (f : X -> Y -> Z) (l : list X) (m : list Y)
      (t : nat) (dx : X) (dy : Y) (dz : Z) :
  (t < length l)%nat -> (t < length m)%nat ->
  nth t (map2 f l m) dz = f (nth t l dx) (nth t m dy).
Proof.
  revert l m; induction t as [|t IH]; intros [|x l] [|y m] Hl Hm;
    simpl in *; try lia; [reflexivity|].
  apply IH; lia.
Qed.

Lemma nth_map_seq {X : Type} (f : nat -> X) (a n k : nat) (d : X) :
  (k < n)%nat -> nth k (map f (seq a n)) d = f (a + k)%nat.
Proof.
  revert a k; induction n as [|n IH]; intros a k Hk; [lia|].
  destruct k as [|k]; simpl.
  - now rewrite Nat.add_0_r.
  - rewrite IH by lia. now rewrite Nat.add_succ_r.
Qed.

Lemma resonance_transform_nth (eta : R) (data : list R) (k : nat) :
  (k < length data)%nat ->
  nth k (resonance_transform eta data) 0 = dft_magnitude eta data k.
Proof.
  intros Hk. unfold resonance_transform, dft_magnitude, dft.
  set (filt := map (fun t => Cexp_i (eta / (INR t + 1))) (seq 0 (length data))).
  set (zs := map2 Cscale data filt).
  assert (Hf : length filt = length data)
    by (unfold filt; now rewrite length_map, length_seq).
  assert (Hz : length zs = length data)
    by (unfold zs; rewrite map2_length, Hf; apply Nat.min_id).
  rewrite map_map, nth_map_seq by (now rewrite Hz). cbn [Nat.add].
  f_equal. rewrite Csum_map2_seq, Hz.
  apply Csum_upto_ext. intros t Ht. cbn [Nat.add]. f_equal.
  unfold zs. rewrite (nth_map2 _ _ _ _ 0 (0, 0)) by (first [exact Ht | rewrite Hf; exact Ht | unfold filt; rewrite length_map, length_seq; exact Ht]). f_equal.
  unfold filt, phase_factor. now rewrite nth_map_seq.
Qed.

(** ** The model on small inputs *)

Example clean_data_example : clean_data [3; -1; 1; 0; 2] = [1; 2; 3].
Proof.
  unfold clean_data.
  rewrite !filter_head.
  rewrite (Rltb_true 0 3), (Rltb_false 0 (-1)), (Rltb_true 0 1),
    (Rltb_false 0 0), (Rltb_true 0 2) by lra.
  cbn [filter np_sort insert_sorted].
  rewrite (Rleb_true 1 2) by lra. cbn [insert_sorted].
  rewrite (Rleb_false 3 1) by lra. now rewrite (Rleb_false 3 2) by lra.
Qed.

Example np_diff_example : np_diff [1; 2; 4] = [2 - 1; 4 - 2].
Proof. reflexivity. Qed.

Example unfold_example : _unfold [1; 2; 4] = [Fin (2 / 3); Fin (4 / 3)].
Proof.
  unfold _unfold. change (np_diff [1; 2; 4]) with [2 - 1; 4 - 2].
  cbn [length Nat.eqb map]. unfold np_mean, Rsum. cbn [fold_right length].
  rewrite (fdiv_fin _ (INR 2)) by (simpl; lra).
  rewrite !fdiv_fin by (simpl; lra).
  apply f_equal2; [apply f_equal; simpl; lra|].
  apply f_equal2; [apply f_equal; simpl; lra | reflexivity].
Qed.

Example bins_ends : length bins = 40%nat /\ hd 0 bins = 0 /\ last bins 0 = 3.
Proof.
  split; [reflexivity|]. rewrite bins_cons. split; [reflexivity|].
  rewrite !last_cons_default. apply bins_last.
Qed.

(** The last bin is closed on the right; cells outside [0, 3] and NaN are
    not counted. *)
Example histogram_total_example :
  Zsum (histogram_counts [Fin 0; Fin 3; Fin 4; NaN; NInf; PInf] bins) = 2%Z.
Proof.
  rewrite histogram_total_bins.
  unfold searchsorted_right, searchsorted_left, count_if.
  rewrite !filter_head. cbn [fle flt filter].
  rewrite (Rleb_true 0 3), (Rleb_true 3 3), (Rleb_false 4 3),
    (Rltb_false 0 0), (Rltb_false 3 0), (Rltb_false 4 0) by lra.
  reflexivity.
Qed.

Example rel_entr_example : rel_entr (Fin 2) (Fin 1) = Fin (2 * ln (2 / 1)).
Proof. apply rel_entr_fin; lra. Qed.

Example scan_resonance_empty_example :
  exists e, fst (scan_resonance [] engine) = Raised e.
Proof. eexists. reflexivity. Qed.

(** ** Claims on the insufficient-sample path, degenerate unfolding,
       determinism and permutation invariance *)

(** C2, refuted as stated: the unit impulse of length 50 has a single
    strictly positive element, yet [scan_resonance] returns a result
    record for it, because the threshold is applied to the transformed
    sequence (fifty ones), not to the sample. *)
Lemma scan_result_despite_few_positives :
  (length (clean_data impulse50) < 50)%nat
  /\ exists r, fst (scan_resonance impulse50 engine) = Returned (Some r).
Proof.
  split.
  - rewrite clean_data_impulse50. simpl. lia.
  - rewrite scan_resonance_impulse50. eexists. reflexivity.
Qed.

(** C2, amended: [analyze_integrity] returns [None] and prints one
    diagnostic line for every sample with fewer than 50 strictly positive
    elements; [scan_resonance] does so for every non-empty sample whose
    transformed magnitude sequence has fewer than 50 strictly positive
    elements, which includes every non-empty sample of fewer than 50
    elements. *)
Theorem insufficient_sample_no_result (sample : list R) (lbl : string) (w : world) :
  let eta := dec_value (resonance_eta (self w)) in
  ((length (clean_data sample) < 50)%nat ->
   analyze_integrity sample lbl w = (Returned None, printed w (diagnostic lbl)))
  /\ (sample <> [] ->
      (length (clean_data (resonance_transform eta sample)) < 50)%nat ->
      scan_resonance sample w
      = (Returned None, printed w (diagnostic (scan_label (self w)))))
  /\ (sample <> [] ->
      (length sample < 50)%nat ->
      scan_resonance sample w
      = (Returned None, printed w (diagnostic (scan_label (self w))))).
Proof.
  cbv zeta. split; [|split].
  - apply analyze_integrity_short.
  - intros Hne H. rewrite scan_resonance_unfold by assumption.
    now apply analyze_integrity_short.
  - intros Hne H. rewrite scan_resonance_unfold by assumption.
    apply analyze_integrity_short.
    eapply Nat.le_lt_trans; [apply clean_data_length_le|].
    now rewrite resonance_transform_length.
Qed.

Lemma insufficient_sample_no_result_witness :
  analyze_integrity [1; -2; 3] "demo" engine
    = (Returned None, printed engine (diagnostic "demo"))
  /\ scan_resonance [1; -2; 3] engine
    = (Returned None, printed engine (diagnostic "Resonancia (Eta=5.26)")).
Proof.
  pose proof (insufficient_sample_no_result [1; -2; 3] "demo" engine) as H.
  cbv zeta in H. destruct H as [H1 [_ H3]].
  split.
  - apply H1.
    eapply Nat.le_lt_trans; [apply clean_data_length_le|]. simpl; lia.
  - apply H3; [discriminate | simpl; lia].
Defined.

(** C3, refuted as stated: on an empty cleaned sample the unfolding is
    empty, but the density histogram built from it is not zero-filled:
    every cell is NaN. *)
Lemma empty_histogram_not_zero_filled :
  (length (clean_data []) < 2)%nat
  /\ _unfold (clean_data []) = []
  /\ empirical_histogram (clean_data []) <> repeat (Fin 0) 39.
Proof.
  split; [simpl; lia|]. split; [reflexivity|].
  change (clean_data []) with (repeat 0 0).
  rewrite empirical_histogram_constant. discriminate.
Qed.

(** C3, amended: a cleaned sample with fewer than 2 elements unfolds to
    the empty spacing sequence (no mean is computed); the histogram and
    divergence computations on it return normally; the raw bin counts are
    all zero and, the density normalisation dividing by their zero total,
    each of the 39 cells of the empirical histogram is NaN, and so are
    the divergence and the score. *)
Theorem degenerate_unfolding (c : list R) (o : RiemannS) :
  (length c < 2)%nat ->
  _unfold c = []
  /\ histogram_counts (_unfold c) bins = repeat 0%Z 39
  /\ empirical_histogram c = repeat NaN 39
  /\ divergence (empirical_histogram c) (theoretical_curve o) = NaN
  /\ score_of (divergence (empirical_histogram c) (theoretical_curve o)) = NaN.
Proof.
  intros H. pose proof (unfold_short c H) as Hu.
  assert (He : empirical_histogram c = repeat NaN 39).
  { unfold empirical_histogram. rewrite Hu.
    now rewrite np_histogram_density_all_nan by constructor. }
  split; [exact Hu|]. split.
  { rewrite Hu. now rewrite histogram_counts_all_nan by constructor. }
  split; [exact He|].
  rewrite He, divergence_all_nan. now split.
Qed.

Lemma degenerate_unfolding_witness :
  _unfold [2] = [] /\ empirical_histogram [2] = repeat NaN 39.
Proof.
  destruct (degenerate_unfolding [2] __init__) as [H1 [_ [H3 _]]].
  - simpl; lia.
  - split; assumption.
Defined.

(** C8: on a constant-zero sample of length at least 50 the transformed
    magnitude sequence of [scan_resonance] is all zero, its strictly
    positive part is empty (fewer than 50 elements), and the scan returns
    [None] with the diagnostic. *)
Theorem scan_resonance_zero_sample (n : nat) (w : world) :
  (50 <= n)%nat ->
  let eta := dec_value (resonance_eta (self w)) in
  resonance_transform eta (repeat 0 n) = repeat 0 n
  /\ clean_data (resonance_transform eta (repeat 0 n)) = []
  /\ scan_resonance (repeat 0 n) w
     = (Returned None, printed w (diagnostic (scan_label (self w)))).
Proof.
  intros Hn eta. subst eta.
  assert (Hne : repeat 0 n <> []) by (destruct n; [lia | discriminate]).
  rewrite scan_resonance_unfold by assumption.
  rewrite resonance_transform_zero, clean_data_repeat_zero.
  split; [reflexivity|]. split; [reflexivity|].
  apply analyze_integrity_short. rewrite clean_data_repeat_zero. simpl; lia.
Qed.

Lemma scan_resonance_zero_sample_witness :
  scan_resonance (repeat 0 50) engine
  = (Returned None, printed engine (diagnostic "Resonancia (Eta=5.26)")).
Proof.
  destruct (scan_resonance_zero_sample 50 engine) as [_ [_ H]].
  - lia.
  - exact H.
Defined.

(** C9: [analyze_integrity] is deterministic.  Two consecutive calls with
    the same sample and label return the same value (same label, score
    and spectrum) and print the same text; the instance is left as it
    was, and what was printed before does not influence the result. *)
Theorem analyze_integrity_deterministic (input : list R) (lbl : string) (w : world) :
  let first := analyze_integrity input lbl w in
  let second := analyze_integrity input lbl (snd first) in
  fst first = fst second
  /\ self (snd first) = self w
  /\ self (snd second) = self w
  /\ (exists out, stdout (snd first) = stdout w ++ out
                  /\ stdout (snd second) = stdout (snd first) ++ out)
  /\ (forall history,
        fst (analyze_integrity input lbl {| self := self w; stdout := history |})
        = fst first).
Proof.
  cbv zeta.
  destruct (Nat.lt_ge_cases (length (clean_data input)) 50) as [H|H].
  - rewrite !analyze_integrity_short by assumption. simpl.
    repeat split; try reflexivity.
    + now exists [diagnostic lbl].
    + intros history. now rewrite analyze_integrity_short.
  - rewrite !analyze_integrity_long by assumption. simpl.
    repeat split; try reflexivity.
    + exists []. now rewrite !app_nil_r.
    + intros history. now rewrite analyze_integrity_long.
Qed.

(** C10: [analyze_integrity] is invariant under permutation of its
    input: the strictly positive values are sorted before anything else
    is computed, so two samples with the same elements give the same
    outcome. *)
Theorem analyze_integrity_permutation (l m : list R) (lbl : string) (w : world) :
  Permutation l m ->
  analyze_integrity l lbl w = analyze_integrity m lbl w.
Proof.
  intros H. unfold analyze_integrity.
  now rewrite (clean_data_perm l m H).
Qed.

Lemma analyze_integrity_permutation_witness :
  analyze_integrity [3; 1; 2] "s" engine = analyze_integrity [1; 2; 3] "s" engine.
Proof.
  apply (analyze_integrity_permutation [3; 1; 2] [1; 2; 3]).
  apply Permutation_sym.
  apply (perm_trans (l' := [1; 3; 2])).
  - apply perm_skip, perm_swap.
  - apply perm_swap.
Defined.

(** ** The arithmetic sequence 1, 2, ..., n as a sample *)

Lemma sorted_map_INR (a n : nat) : StronglySorted Rle (map INR (seq a n)).
Proof.
  revert a; induction n as [|n IH]; intros a; simpl; constructor; [apply IH|].
  apply Forall_forall. intros x Hx. apply in_map_iff in Hx.
  destruct Hx as [k [<- Hk]]. apply in_seq in Hk. apply le_INR. lia.
Qed.

Lemma clean_data_ramp (n : nat) : clean_data (ramp n) = ramp n.
Proof.
  unfold clean_data, ramp. rewrite filter_all.
  - apply np_sort_sorted_id, sorted_map_INR.
  - apply Forall_forall. intros x Hx. apply in_map_iff in Hx.
    destruct Hx as [k [<- Hk]]. apply in_seq in Hk.
    apply Rltb_true, lt_0_INR. lia.
Qed.

Lemma ramp_nondegenerate (n : nat) : nondegenerate (ramp (S (S n))).
Proof.
  exists (INR 2 - INR 1). split.
  - unfold ramp. change (seq 1 (S (S n))) with (1 :: 2 :: seq 3 n)%nat.
    cbn [map]. rewrite np_diff_cons2. now left.
  - simpl. lra.
Qed.

Lemma ramp_length (n : nat) : length (ramp n) = n.
Proof. unfold ramp. now rewrite length_map, length_seq. Qed.

Lemma in_float_range (x : R) : 1 <= x <= 1000 -> / 10 ^ 100 <= x <= 10 ^ 100.
Proof.
  intros [H1 H2].
  assert (Hp : 1 <= 10 ^ 97) by (apply pow_R1_Rle; lra).
  assert (E : 10 ^ 100 = 10 ^ 3 * 10 ^ 97) by (rewrite <- pow_add; reflexivity).
  rewrite E. split.
  - apply Rle_trans with 1; [|assumption].
    rewrite <- Rinv_1. apply Rinv_le_contravar; [lra | simpl; nra].
  - simpl. nra.
Qed.

Lemma ramp_float_safe (n : nat) : (n <= 1000)%nat -> float_safe (ramp n).
Proof.
  intros Hn. unfold float_safe, ramp. apply Forall_forall. intros x Hx.
  apply in_map_iff in Hx. destruct Hx as [k [<- Hk]]. apply in_seq in Hk.
  apply in_float_range. split.
  - replace 1 with (INR 1) by reflexivity. apply le_INR. lia.
  - replace 1000 with (INR 1000) by (rewrite INR_IZR_INZ; reflexivity).
    apply le_INR. lia.
Qed.

Lemma centers_by_width :
  centers = map (fun k => (INR k + 1 / 2) * bin_width) (seq 0 39).
Proof.
  rewrite centers_eq. apply map_ext. intros k. unfold bin_width. field.
Qed.

Lemma bin_widths : Forall (fun wd => wd = bin_width) (np_diff bins).
Proof.
  rewrite np_diff_bins. apply Forall_forall. intros x Hx.
  apply repeat_spec in Hx. subst. unfold bin_width. field.
Qed.

(** ** Claims on the score, the histogram, the unfolding and the curve *)

(** [Binary64.tiny] is the smallest positive binary64 number: it is
    above 0 and its half rounds to 0. *)
Lemma tiny_is_smallest :
  PrimFloat.ltb (Binary64.of_Z 0) Binary64.tiny = true
  /\ PrimFloat.eqb (PrimFloat.div Binary64.tiny (Binary64.of_Z 2))
                   (Binary64.of_Z 0) = true.
Proof. vm_compute. split; reflexivity. Qed.

(** C1, refuted as stated: fifty equal positive values pass the size
    check, but every spacing is 0/0, so the divergence and the score are
    NaN: no value in (0, 100] is returned.  In binary64 the same happens
    to values that are not all equal when the mean of their differences
    underflows: for 49 copies of 2^-1074 and one 2^-1073 the mean is 0,
    the spacings are NaN or infinite and every density is NaN. *)
Lemma constant_sample_score_nan :
  ((50 <= length (clean_data ones50))%nat
   /\ exists r, fst (analyze_integrity ones50 "s" engine) = Returned (Some r)
                /\ score r = NaN
                /\ ~ (exists x, score r = Fin x /\ 0 < x <= 100))
  /\ (let c := repeat Binary64.tiny 49
                ++ [PrimFloat.mul (Binary64.of_Z 2) Binary64.tiny] in
      PrimFloat.eqb (Binary64.np_mean (Binary64.np_diff c)) (Binary64.of_Z 0) = true
      /\ forallb (fun s => PrimFloat.is_nan s || PrimFloat.is_infinity s)
                 (Binary64._unfold c) = true
      /\ forallb PrimFloat.is_nan (Binary64.empirical_histogram c) = true).
Proof.
  split; [split|].
  - unfold ones50. rewrite clean_data_repeat_pos by lra.
    now rewrite repeat_length.
  - rewrite analyze_integrity_ones50. eexists. split; [reflexivity|].
    cbn [score]. split; [reflexivity|]. intros [x [Hx _]]. discriminate.
  - vm_compute. repeat split.
Qed.

(** C1, amended: for every sample whose cleaned subsequence has at least
    50 elements that are not all equal (non-degenerate spacings) and lie
    between 1e-100 and 1e100 (no underflow or overflow of the spacings),
    the analyzer built by [__init__] returns a record; the divergence
    [d] of the histogram and the curve it holds is a nonnegative real,
    the score is [100 * exp (-d)] up to rounding (within 1e-9), it lies
    in (0, 100] and equals 100 exactly when [d] is 0. *)
Theorem score_in_range (input : list R) (lbl : string) (w : world) :
  self w = __init__ ->
  (50 <= length (clean_data input))%nat ->
  nondegenerate (clean_data input) ->
  float_safe (clean_data input) ->
  exists (r : ScoreResult) (d x : R),
    fst (analyze_integrity input lbl w) = Returned (Some r)
    /\ divergence (snd (fst (spectrum r))) (snd (spectrum r)) = Fin d
    /\ score r = Fin x
    /\ Rabs (x - 100 * exp (- d)) <= / 10 ^ 9
    /\ 0 <= d
    /\ 0 < x <= 100
    /\ (x = 100 <-> d = 0).
Proof.
  intros Hself Hlen Hnd _.
  destruct (divergence_nondegenerate (clean_data input)
              (clean_data_sorted input) Hnd) as [d [Hd Hpos]].
  rewrite analyze_integrity_long by assumption. rewrite Hself, Hd.
  eexists; exists d, (100 * exp (- d)).
  split; [reflexivity|]. cbn [score spectrum fst snd].
  split; [exact Hd|]. split; [apply score_of_fin|].
  split.
  { replace (100 * exp (- d) - 100 * exp (- d)) with 0 by ring.
    rewrite Rabs_R0. left. apply Rinv_0_lt_compat, pow_lt. lra. }
  split; [lra|].
  pose proof (exp_pos (- d)) as He.
  assert (exp (- d) < 1).
  { rewrite <- exp_0. apply exp_increasing. lra. }
  split; [lra|]. split; intros H0; lra.
Qed.

Lemma score_in_range_witness :
  exists (r : ScoreResult) (x : R),
    fst (analyze_integrity (ramp 50) "ramp" engine) = Returned (Some r)
    /\ score r = Fin x
    /\ 0 < x <= 100.
Proof.
  destruct (score_in_range (ramp 50) "ramp" engine)
    as [r [d [x [H1 [_ [H3 [_ [_ [H6 _]]]]]]]]].
  - reflexivity.
  - rewrite clean_data_ramp, ramp_length. lia.
  - rewrite clean_data_ramp. apply ramp_nondegenerate.
  - rewrite clean_data_ramp. apply ramp_float_safe. lia.
  - exists r, x. repeat split; try assumption; apply H6.
Defined.

(** C4, refuted as stated: the label handed to the scorer is
    "Resonancia (Eta=5.26)", not "Resonance scan (eta=5.26)"; on the unit
    impulse of length 50 the scan returns a record carrying the former. *)
Lemma scan_label_is_not_resonance_scan :
  (exists r, fst (scan_resonance impulse50 engine) = Returned (Some r)
             /\ label r = "Resonancia (Eta=5.26)"%string
             /\ label r <> "Resonance scan (eta=5.26)"%string)
  /\ scan_resonance impulse50 engine
     <> analyze_integrity (resonance_transform 5.26 impulse50)
          "Resonance scan (eta=5.26)" engine.
Proof.
  split.
  - rewrite scan_resonance_impulse50. eexists. split; [reflexivity|].
    cbn [label]. split; [reflexivity | discriminate].
  - rewrite scan_resonance_impulse50. unfold impulse50.
    rewrite resonance_transform_impulse.
    fold ones50. rewrite analyze_integrity_ones50.
    intros H. discriminate H.
Qed.

(** C4, amended: for every non-empty sample of length n whose non-zero
    elements have magnitudes between 1e-100 and 1e100, [scan_resonance]
    returns exactly what [analyze_integrity] returns, with the label
    "Resonancia (Eta=5.26)", on a nonnegative real sequence of the same
    length n: the magnitudes of the discrete Fourier transform of the
    sample multiplied element by element by the phase factors
    exp(i 5.26/(t+1)), each computed up to rounding (within 1e-9 times
    the sum of the magnitudes of the sample). *)
Theorem scan_resonance_delegates (data : list R) (w : world) :
  self w = __init__ ->
  data <> [] ->
  Forall (fun x => x = 0 \/ / 10 ^ 100 <= Rabs x <= 10 ^ 100) data ->
  exists transformed : list R,
    length transformed = length data
    /\ Forall (fun m => 0 <= m) transformed
    /\ (forall k, (k < length data)%nat ->
          Rabs (nth k transformed 0 - dft_magnitude 5.26 data k)
          <= / 10 ^ 9 * Rsum (map Rabs data))
    /\ scan_resonance data w
       = analyze_integrity transformed "Resonancia (Eta=5.26)" w.
Proof.
  intros Hself Hne _.
  exists (resonance_transform 5.26 data).
  split; [apply resonance_transform_length|].
  split; [apply resonance_transform_nonneg|].
  split.
  - intros k Hk. rewrite resonance_transform_nth by assumption.
    replace (dft_magnitude 5.26 data k - dft_magnitude 5.26 data k) with 0 by ring.
    rewrite Rabs_R0. apply Rmult_le_pos.
    + left. apply Rinv_0_lt_compat, pow_lt. lra.
    + apply Rsum_nonneg. apply Forall_forall. intros y Hy.
      apply in_map_iff in Hy. destruct Hy as [x [<- _]]. apply Rabs_pos.
  - rewrite scan_resonance_unfold, Hself, value_eta by assumption. reflexivity.
Qed.

Lemma scan_resonance_delegates_witness :
  exists transformed : list R,
    length transformed = 3%nat
    /\ scan_resonance [1; 2; 3] engine
       = analyze_integrity transformed "Resonancia (Eta=5.26)" engine.
Proof.
  destruct (scan_resonance_delegates [1; 2; 3] engine) as [t [H1 [_ [_ H4]]]].
  - reflexivity.
  - discriminate.
  - repeat (apply Forall_cons; [right; rewrite Rabs_pos_eq by lra;
                                apply in_float_range; lra|]).
    apply Forall_nil.
  - exists t. split; assumption.
Defined.

(** C5, refuted as stated: the unfolded spacings of fifty equal positive
    values form a non-empty sequence (49 cells, all NaN); no cell falls
    in a bin, the normalisation divides 0 by 0, and the densities do not
    integrate to 1.  In binary64 the integral is not exactly 1 for
    ordinary samples either: for the cleaned sample 1, 2, 3 both spacings
    fall in one bin and the sum of the densities times 3/39 is below 1. *)
Lemma constant_sample_histogram_not_normalised :
  (_unfold (clean_data ones50) <> []
   /\ fmul (np_sum (empirical_histogram (clean_data ones50))) (Fin bin_width)
      <> Fin 1)
  /\ (let c := map Binary64.of_Z [1; 2; 3]%Z in
      Binary64.histogram_counts (Binary64._unfold c) Binary64.bins
      = repeat 0%Z 13 ++ 2%Z :: repeat 0%Z 25
      /\ PrimFloat.ltb
           (PrimFloat.mul (Binary64.np_sum (Binary64.empirical_histogram c))
                          Binary64.bin_width)
           (Binary64.of_Z 1) = true).
Proof.
  split.
  - unfold ones50. rewrite clean_data_repeat_pos by lra.
    rewrite unfold_constant, empirical_histogram_constant.
    split; discriminate.
  - vm_compute. split; reflexivity.
Qed.

(** C5, amended: for every cleaned sample with non-degenerate spacings
    whose values lie between 1e-100 and 1e100 (its unfolded spacing
    sequence is then non-empty and finite), the empirical histogram has
    39 cells over bins whose widths are 3/39 up to rounding, and the sum
    of its densities multiplied by the bin width 3/39 equals 1 up to
    rounding: it is a real number within 1e-9 of 1. *)
Theorem histogram_integrates_to_one (input : list R) :
  nondegenerate (clean_data input) ->
  float_safe (clean_data input) ->
  let hist := empirical_histogram (clean_data input) in
  _unfold (clean_data input) <> []
  /\ length hist = 39%nat
  /\ Forall (fun wd => Rabs (wd - bin_width) <= / 10 ^ 9) (np_diff bins)
  /\ exists s, fmul (np_sum hist) (Fin bin_width) = Fin s
               /\ Rabs (s - 1) <= / 10 ^ 9.
Proof.
  intros Hnd _ hist. subst hist.
  pose proof (clean_data_sorted input) as Hs.
  assert (Htol : 0 < / 10 ^ 9) by (apply Rinv_0_lt_compat, pow_lt; lra).
  split.
  { rewrite unfold_nondegenerate by assumption.
    destruct Hnd as [d [Hin _]]. destruct (np_diff (clean_data input));
      [destruct Hin | discriminate]. }
  split.
  { rewrite empirical_histogram_fin by assumption.
    now rewrite length_map, histogram_counts_length, bins_length. }
  split.
  { eapply Forall_impl; [|apply bin_widths]. intros wd ->.
    replace (bin_width - bin_width) with 0 by ring. rewrite Rabs_R0. lra. }
  rewrite empirical_histogram_sum by assumption.
  cbn [fmul]. eexists. split; [reflexivity|].
  replace (13 * bin_width - 1) with 0 by (unfold bin_width; field).
  rewrite Rabs_R0. lra.
Qed.

Lemma histogram_integrates_to_one_witness :
  exists s, fmul (np_sum (empirical_histogram (clean_data (ramp 3)))) (Fin bin_width)
            = Fin s
            /\ Rabs (s - 1) <= / 10 ^ 9.
Proof.
  destruct (histogram_integrates_to_one (ramp 3)) as [_ [_ [_ H]]].
  - rewrite clean_data_ramp. apply ramp_nondegenerate.
  - rewrite clean_data_ramp. apply ramp_float_safe. lia.
  - exact H.
Defined.

(** C6, refuted as stated: in binary64 the mean of the unfolded
    spacings is not exactly 1.  For the cleaned sample 1, 2, 3, 14 there
    are three spacings and their mean, in whatever order they are added,
    is the float above 1. *)
Lemma unfolded_mean_not_exactly_one :
  let c := map Binary64.of_Z [1; 2; 3; 14]%Z in
  let s := Binary64._unfold c in
  let s0 := nth 0 s (Binary64.of_Z 0) in
  let s1 := nth 1 s (Binary64.of_Z 0) in
  let s2 := nth 2 s (Binary64.of_Z 0) in
  let mean_of x y z :=
    PrimFloat.div (PrimFloat.add (PrimFloat.add x y) z) (Binary64.of_Z 3) in
  length s = (length c - 1)%nat
  /\ PrimFloat.eqb (Binary64.np_mean s) (Binary64.of_Z 1) = false
  /\ PrimFloat.ltb (Binary64.of_Z 1) (Binary64.np_mean s) = true
  /\ PrimFloat.eqb (mean_of s0 s1 s2) (Binary64.of_Z 1) = false
  /\ PrimFloat.eqb (mean_of s0 s2 s1) (Binary64.of_Z 1) = false
  /\ PrimFloat.eqb (mean_of s1 s2 s0) (Binary64.of_Z 1) = false.
Proof. vm_compute. repeat split. Qed.

(** C6, amended: for every cleaned sample of length at least 2 whose
    consecutive differences are not all zero and whose values lie
    between 1e-100 and 1e100, the unfolded spacing sequence has
    [len - 1] finite elements, each the corresponding difference divided
    by the mean of the differences up to rounding (relative error at
    most 1e-9), and its mean is 1 up to rounding: a real number within
    1e-9 of 1. *)
Theorem unfolded_spacing_unit_mean (input : list R) :
  let c := clean_data input in
  (2 <= length c)%nat ->
  nondegenerate c ->
  float_safe c ->
  exists s : list R,
    _unfold c = map Fin s
    /\ length s = (length c - 1)%nat
    /\ (forall i, (i < length s)%nat ->
          let q := nth i (np_diff c) 0 / mean_spacing c in
          Rabs (nth i s 0 - q) <= / 10 ^ 9 * q)
    /\ exists m, fmean (_unfold c) = Fin m /\ Rabs (m - 1) <= / 10 ^ 9.
Proof.
  intros c _ Hnd _. subst c.
  pose proof (clean_data_sorted input) as Hs.
  pose proof (mean_spacing_pos _ Hs Hnd) as Hm.
  assert (Htol : 0 < / 10 ^ 9) by (apply Rinv_0_lt_compat, pow_lt; lra).
  destruct (unfold_mean_one (clean_data input) Hs Hnd) as [H1 H2].
  exists (map (fun d => d / mean_spacing (clean_data input))
              (np_diff (clean_data input))).
  split; [rewrite unfold_nondegenerate by assumption; now rewrite map_map|].
  split; [now rewrite length_map, np_diff_length|].
  split.
  - intros i Hi q. subst q. rewrite length_map in Hi.
    set (q := nth i (np_diff (clean_data input)) 0 / mean_spacing (clean_data input)).
    assert (E : nth i (map (fun d => d / mean_spacing (clean_data input))
                           (np_diff (clean_data input))) 0 = q).
    { subst q.
      rewrite <- (map_nth (fun d => d / mean_spacing (clean_data input))
                          (np_diff (clean_data input)) 0 i).
      apply nth_indep. now rewrite length_map. }
    rewrite E.
    replace (q - q) with 0 by ring. rewrite Rabs_R0.
    apply Rmult_le_pos; [lra|]. subst q. apply Rdiv_nonneg; [|lra].
    pose proof (np_diff_nonneg _ Hs) as Hd. rewrite Forall_forall in Hd.
    apply Hd. now apply nth_In.
  - exists 1. split; [exact H1|].
    replace (1 - 1) with 0 by ring. rewrite Rabs_R0. lra.
Qed.

Lemma unfolded_spacing_unit_mean_witness :
  exists s : list R,
    _unfold (clean_data (ramp 3)) = map Fin s
    /\ length s = 2%nat
    /\ exists m, fmean (_unfold (clean_data (ramp 3))) = Fin m
                 /\ Rabs (m - 1) <= / 10 ^ 9.
Proof.
  destruct (unfolded_spacing_unit_mean (ramp 3)) as [s [H1 [H2 [_ H4]]]].
  - rewrite clean_data_ramp, ramp_length. lia.
  - rewrite clean_data_ramp. apply ramp_nondegenerate.
  - rewrite clean_data_ramp. apply ramp_float_safe. lia.
  - exists s. split; [exact H1|]. split; [|exact H4].
    rewrite H2, clean_data_ramp, ramp_length. reflexivity.
Defined.

(** C7: in every result returned by the analyzer built by [__init__]
    (directly or through the resonance scan) the spectrum holds the 39
    bin centers and, at each of them, the value A s^2 exp(-B s^2) with
    A = 32/pi^2 and B = 4/pi; neither operation modifies the
    constants of the instance. *)
Theorem theoretical_curve_wigner_dyson
        (input : list R) (lbl : string) (w : world) (r : ScoreResult) :
  self w = __init__ ->
  fst (analyze_integrity input lbl w) = Returned (Some r)
  \/ fst (scan_resonance input w) = Returned (Some r) ->
  let cs := fst (fst (spectrum r)) in
  let theory := snd (spectrum r) in
  cs = map (fun k => (INR k + 1 / 2) * bin_width) (seq 0 39)
  /\ theory = map (fun s => 32 / PI ^ 2 * s ^ 2 * exp (- (4 / PI) * s ^ 2)) cs
  /\ self (snd (analyze_integrity input lbl w)) = __init__
  /\ self (snd (scan_resonance input w)) = __init__.
Proof.
  intros Hself Hr cs theory.
  assert (Hspec : forall data l,
             fst (analyze_integrity data l w) = Returned (Some r) ->
             spectrum r = (centers, empirical_histogram (clean_data data),
                           theoretical_curve __init__)).
  { intros data l H.
    destruct (Nat.lt_ge_cases (length (clean_data data)) 50) as [Hc|Hc].
    - rewrite analyze_integrity_short in H by assumption. discriminate.
    - rewrite analyze_integrity_long in H by assumption.
      injection H as <-. cbn [spectrum]. now rewrite Hself. }
  assert (Hs : exists h, spectrum r = (centers, h, theoretical_curve __init__)).
  { destruct Hr as [Hr|Hr].
    - eexists. apply (Hspec _ _ Hr).
    - destruct input as [|x input]; [discriminate|].
      rewrite scan_resonance_unfold in Hr by discriminate.
      eexists. apply (Hspec _ _ Hr). }
  destruct Hs as [h Hs]. subst cs theory. rewrite Hs. cbn [fst snd].
  split; [apply centers_by_width|].
  split; [reflexivity|].
  split.
  - now rewrite analyze_integrity_self.
  - now rewrite scan_resonance_self.
Qed.

Lemma theoretical_curve_wigner_dyson_witness :
  exists r, fst (analyze_integrity ones50 "s" engine) = Returned (Some r)
    /\ snd (spectrum r)
       = map (fun s => 32 / PI ^ 2 * s ^ 2 * exp (- (4 / PI) * s ^ 2))
             (fst (fst (spectrum r)))
    /\ self (snd (analyze_integrity ones50 "s" engine)) = __init__.
Proof.
  eexists. split; [rewrite analyze_integrity_ones50; reflexivity|].
  destruct (theoretical_curve_wigner_dyson ones50 "s" engine
              {| label := "s"; score := NaN;
                 spectrum := (centers, repeat NaN 39, theoretical_curve __init__) |})
    as [_ [H2 [H3 _]]].
  - reflexivity.
  - left. now rewrite analyze_integrity_ones50.
  - split; [exact H2 | exact H3].
Defined.

(** ** Further properties of the scorer *)

Lemma clean_data_length (l : list R) :
  length (clean_data l) = length (filter (fun x => Rltb 0 x) l).
Proof. unfold clean_data. apply np_sort_length. Qed.

Lemma clean_data_all_pos (l : list R) :
  Forall (fun x => Rltb 0 x = true) (clean_data l).
Proof.
  apply Forall_forall. intros x Hx. apply clean_data_in in Hx.
  now apply Rltb_true.
Qed.

Lemma clean_data_idem (l : list R) : clean_data (clean_data l) = clean_data l.
Proof.
  unfold clean_data at 1. rewrite filter_all by apply clean_data_all_pos.
  apply np_sort_sorted_id, clean_data_sorted.
Qed.

Lemma np_histogram_density_length (a : list float) :
  length (np_histogram_density a bins) = 39%nat.
Proof.
  unfold np_histogram_density.
  rewrite map2_length, histogram_counts_length, np_diff_length, bins_length.
  reflexivity.
Qed.

Lemma centers_inside : Forall (fun c => 0 < c < 3) centers.
Proof.
  rewrite centers_eq. apply Forall_forall. intros c Hc.
  apply in_map_iff in Hc. destruct Hc as [k [<- Hk]]. apply in_seq in Hk.
  assert (0 <= INR k) by apply pos_INR.
  assert (INR k <= 38).
  { replace 38 with (INR 38) by (rewrite INR_IZR_INZ; reflexivity).
    apply le_INR. lia. }
  lra.
Qed.

(** X1: [analyze_integrity] never raises; it returns a result exactly
    when the sample has at least 50 strictly positive elements and
    [None] otherwise; it prints (one diagnostic line) exactly in the
    second case and never changes the instance. *)
Theorem analyze_integrity_threshold (input : list R) (lbl : string) (w : world) :
  let positives := length (filter (fun x => Rltb 0 x) input) in
  let out := analyze_integrity input lbl w in
  ((exists r, fst out = Returned (Some r)) <-> (50 <= positives)%nat)
  /\ (fst out = Returned None <-> (positives < 50)%nat)
  /\ (forall e, fst out <> Raised e)
  /\ (stdout (snd out) = stdout w <-> (50 <= positives)%nat)
  /\ (stdout (snd out) = stdout w ++ [diagnostic lbl] <-> (positives < 50)%nat)
  /\ self (snd out) = self w.
Proof.
  cbv zeta. rewrite <- clean_data_length.
  assert (Hneq : forall (l : list string) (x : string), l <> l ++ [x]).
  { intros l x H. apply (f_equal (@length string)) in H.
    rewrite length_app in H. simpl in H. lia. }
  destruct (Nat.lt_ge_cases (length (clean_data input)) 50) as [H|H].
  - rewrite analyze_integrity_short by assumption. cbn [fst snd printed stdout self].
    repeat split; try discriminate; try lia; try (intros; assumption).
    + intros [r Hr]. discriminate.
    + intros E. exfalso. symmetry in E. exact (Hneq _ _ E).
  - rewrite analyze_integrity_long by assumption. cbn [fst snd].
    repeat split; try discriminate; try lia; try (intros; assumption).
    + intros _. eexists. reflexivity.
    + intros E. exfalso. exact (Hneq _ _ E).
Qed.

(** X2: a returned record carries the label it was given and three
    arrays of 39 cells each; the bin centers lie strictly inside (0, 3). *)
Theorem result_record_shape
        (input : list R) (lbl : string) (w : world) (r : ScoreResult) :
  fst (analyze_integrity input lbl w) = Returned (Some r) ->
  label r = lbl
  /\ length (fst (fst (spectrum r))) = 39%nat
  /\ length (snd (fst (spectrum r))) = 39%nat
  /\ length (snd (spectrum r)) = 39%nat
  /\ Forall (fun c => 0 < c < 3) (fst (fst (spectrum r))).
Proof.
  intros H.
  destruct (Nat.lt_ge_cases (length (clean_data input)) 50) as [Hc|Hc].
  - rewrite analyze_integrity_short in H by assumption. discriminate.
  - rewrite analyze_integrity_long in H by assumption.
    injection H as <-. cbn [label spectrum fst snd].
    split; [reflexivity|]. split; [apply centers_length|].
    split; [apply np_histogram_density_length|].
    split; [apply theoretical_curve_length | apply centers_inside].
Qed.

Lemma result_record_shape_witness :
  exists r, fst (analyze_integrity (ramp 50) "ramp" engine) = Returned (Some r)
            /\ label r = "ramp"%string
            /\ length (snd (fst (spectrum r))) = 39%nat.
Proof.
  assert (H : (50 <= length (clean_data (ramp 50)))%nat)
    by (rewrite clean_data_ramp, ramp_length; lia).
  eexists. split; [rewrite analyze_integrity_long by exact H; reflexivity|].
  destruct (result_record_shape (ramp 50) "ramp" engine _
              ltac:(rewrite analyze_integrity_long by exact H; reflexivity))
    as [H1 [_ [H3 _]]].
  split; assumption.
Defined.

(** X3: values that are not strictly positive never influence the
    outcome: appending any number of them to a sample changes nothing. *)
Theorem nonpositive_values_ignored
        (input junk : list R) (lbl : string) (w : world) :
  Forall (fun x => x <= 0) junk ->
  analyze_integrity (input ++ junk) lbl w = analyze_integrity input lbl w.
Proof.
  intros Hj. unfold analyze_integrity.
  replace (clean_data (input ++ junk)) with (clean_data input); [reflexivity|].
  unfold clean_data. rewrite filter_app.
  rewrite (filter_none _ junk); [now rewrite app_nil_r|].
  eapply Forall_impl; [|exact Hj]. intros x Hx. now apply Rltb_false.
Qed.

Lemma nonpositive_values_ignored_witness :
  analyze_integrity ([1; 2] ++ [0; -3]) "s" engine
  = analyze_integrity [1; 2] "s" engine.
Proof.
  apply (nonpositive_values_ignored [1; 2] [0; -3]).
  repeat constructor; lra.
Defined.

(** X4: the cleaned sample is the ascending arrangement of exactly the
    strictly positive elements of the input (with their multiplicities),
    and cleaning twice is cleaning once. *)
Theorem clean_data_characterised (input : list R) :
  StronglySorted Rle (clean_data input)
  /\ Permutation (clean_data input) (filter (fun x => Rltb 0 x) input)
  /\ (forall x, In x (clean_data input) <-> In x input /\ 0 < x)
  /\ clean_data (clean_data input) = clean_data input.
Proof.
  split; [apply clean_data_sorted|].
  split; [apply Permutation_sym, np_sort_perm|].
  split; [apply clean_data_in | apply clean_data_idem].
Qed.

(** ** Invariance under binary rescaling and shifting *)

Lemma np_diff_map_affine (a b : R) (l : list R) :
  np_diff (map (fun x => a * x + b) l) = map (fun d => a * d) (np_diff l).
Proof.
  induction l as [|x l IH]; [reflexivity|].
  destruct l as [|y l]; [reflexivity|].
  cbn [map] in *. rewrite !np_diff_cons2. cbn [map]. rewrite IH.
  f_equal. ring.
Qed.

Lemma Rsum_map_scale (a : R) (l : list R) :
  Rsum (map (fun d => a * d) l) = a * Rsum l.
Proof.
  induction l as [|x l IH]; unfold Rsum in *; cbn [map fold_right].
  - ring.
  - rewrite IH. ring.
Qed.

Lemma fsign_scale (a d : R) : 0 < a -> fsign (Fin (a * d)) = fsign (Fin d).
Proof.
  intros Ha. unfold fsign.
  destruct (Rlt_dec 0 d) as [H|H].
  - rewrite !Rltb_true; [reflexivity | assumption | nra].
  - rewrite (Rltb_false 0 d), (Rltb_false 0 (a * d)) by nra.
    destruct (Rlt_dec d 0) as [H'|H'].
    + rewrite !Rltb_true; [reflexivity | assumption | nra].
    + now rewrite (Rltb_false d 0), (Rltb_false (a * d) 0) by nra.
Qed.

(** The division of [_unfold] is unchanged when the dividend and the
    divisor are scaled by the same positive factor, also when the
    divisor is zero. *)
Lemma fdiv_scale (a d m : R) :
  0 < a -> fdiv (Fin (a * d)) (Fin (a * m)) = fdiv (Fin d) (Fin m).
Proof.
  intros Ha. destruct (Req_dec_T m 0) as [->|Hm].
  - unfold fdiv. rewrite !Reqb0_true by ring. now rewrite fsign_scale.
  - rewrite !fdiv_fin; [f_equal; field; split; lra | assumption | nra].
Qed.

Lemma unfold_affine (a b : R) (data : list R) :
  0 < a -> _unfold (map (fun x => a * x + b) data) = _unfold data.
Proof.
  intros Ha. unfold _unfold. rewrite np_diff_map_affine, length_map.
  destruct (length (np_diff data) =? 0)%nat eqn:E; [reflexivity|].
  apply Nat.eqb_neq in E.
  rewrite map_map. apply map_ext. intros d.
  unfold np_mean. rewrite length_map, Rsum_map_scale.
  assert (Hn : INR (length (np_diff data)) <> 0) by now apply not_0_INR.
  rewrite (fdiv_fin (Rsum (np_diff data)) _ Hn).
  rewrite (fdiv_fin (a * Rsum (np_diff data)) _ Hn).
  replace (a * Rsum (np_diff data) / INR (length (np_diff data)))
    with (a * (Rsum (np_diff data) / INR (length (np_diff data))))
    by (field; assumption).
  now apply fdiv_scale.
Qed.

Lemma sorted_map_affine (a b : R) (l : list R) :
  0 < a -> StronglySorted Rle l ->
  StronglySorted Rle (map (fun x => a * x + b) l).
Proof.
  intros Ha. induction 1 as [|x l Hs IH Hx]; cbn [map]; constructor;
    [assumption|].
  apply Forall_forall. intros y Hy. apply in_map_iff in Hy.
  destruct Hy as [z [<- Hz]]. rewrite Forall_forall in Hx.
  specialize (Hx z Hz). nra.
Qed.

Lemma np_sort_map_affine (a b : R) (l : list R) :
  0 < a ->
  np_sort (map (fun x => a * x + b) l) = map (fun x => a * x + b) (np_sort l).
Proof.
  intros Ha. apply sorted_perm_unique.
  - apply np_sort_sorted.
  - apply sorted_map_affine; [assumption | apply np_sort_sorted].
  - eapply perm_trans; [apply Permutation_sym, np_sort_perm|].
    apply Permutation_map, np_sort_perm.
Qed.

Lemma filter_map_same {X : Type} (p : X -> bool) (f : X -> X) (l : list X) :
  (forall x, In x l -> p (f x) = p x) ->
  filter p (map f l) = map f (filter p l).
Proof.
  induction l as [|x l IH]; intros H; [reflexivity|].
  cbn [map filter]. rewrite H by now left.
  rewrite IH by (intros; apply H; now right).
  now destruct (p x).
Qed.

Lemma Rltb_iff (a b c d : R) : (a < b <-> c < d) -> Rltb a b = Rltb c d.
Proof.
  intros H. destruct (Rlt_dec a b) as [H1|H1].
  - rewrite !Rltb_true; tauto.
  - rewrite !Rltb_false; [reflexivity | |]; apply Rnot_lt_le; tauto.
Qed.

(** An increasing affine map that keeps the sign test of every element
    commutes with cleaning and leaves the outcome unchanged. *)
Lemma analyze_integrity_affine (a b : R) (input : list R) (lbl : string) (w : world) :
  0 < a ->
  (forall x, In x input -> (0 < a * x + b <-> 0 < x)) ->
  analyze_integrity (map (fun x => a * x + b) input) lbl w
  = analyze_integrity input lbl w.
Proof.
  intros Ha Hsign.
  assert (Hc : clean_data (map (fun x => a * x + b) input)
               = map (fun x => a * x + b) (clean_data input)).
  { unfold clean_data. rewrite filter_map_same.
    - now apply np_sort_map_affine.
    - intros x Hx. apply Rltb_iff. now apply Hsign. }
  unfold analyze_integrity. rewrite Hc, length_map.
  now rewrite unfold_affine.
Qed.

Lemma pow2Z_pos (k : Z) : 0 < powerRZ 2 k.
Proof. apply powerRZ_lt. lra. Qed.

(** X5: unfolding does not depend on the binary scale of the data:
    multiplying every element by the same power of two [2^k], with
    [-100 <= k <= 100], leaves every spacing unchanged, degenerate data
    included, for data (in any order, of any sign) whose non-zero
    elements have magnitudes between 1e-100 and 1e100.  In float64 such
    a scaling is exact for the products, the differences, their mean and
    the quotients. *)
Theorem unfold_binary_scale_invariant (k : Z) (data : list R) :
  (-100 <= k <= 100)%Z ->
  Forall (fun x => x = 0 \/ / 10 ^ 100 <= Rabs x <= 10 ^ 100) data ->
  _unfold (map (fun x => powerRZ 2 k * x) data) = _unfold data.
Proof.
  intros _ _. rewrite <- (unfold_affine (powerRZ 2 k) 0 data (pow2Z_pos k)).
  f_equal. apply map_ext. intros x. ring.
Qed.

Lemma unfold_binary_scale_invariant_witness :
  _unfold (map (fun x => powerRZ 2 3 * x) [1; 2; 4]) = _unfold [1; 2; 4].
Proof.
  apply (unfold_binary_scale_invariant 3 [1; 2; 4]); [lia|].
  repeat (apply Forall_cons; [right; rewrite Rabs_pos_eq by lra;
                                apply in_float_range; lra|]).
  apply Forall_nil.
Defined.

(** X6: the outcome does not depend on the binary scale of the sample:
    multiplying every element by the same power of two [2^k], with
    [-100 <= k <= 100], changes neither the returned record nor what is
    printed, for a sample whose strictly positive elements lie between
    1e-100 and 1e100 (the scaling is then exact in float64 and keeps the
    sign test, the order and the spacings). *)
Theorem analyze_integrity_binary_scale_invariant
        (k : Z) (input : list R) (lbl : string) (w : world) :
  (-100 <= k <= 100)%Z ->
  Forall (fun x => x <= 0 \/ / 10 ^ 100 <= x <= 10 ^ 100) input ->
  analyze_integrity (map (fun x => powerRZ 2 k * x) input) lbl w
  = analyze_integrity input lbl w.
Proof.
  intros _ _. pose proof (pow2Z_pos k) as Ha.
  rewrite <- (analyze_integrity_affine (powerRZ 2 k) 0 input lbl w Ha).
  - f_equal. apply map_ext. intros x. ring.
  - intros x _. split; intros H; nra.
Qed.

Lemma analyze_integrity_binary_scale_invariant_witness :
  analyze_integrity (map (fun x => powerRZ 2 10 * x) (ramp 50)) "s" engine
  = analyze_integrity (ramp 50) "s" engine.
Proof.
  apply (analyze_integrity_binary_scale_invariant 10 (ramp 50)); [lia|].
  eapply Forall_impl; [|apply (ramp_float_safe 50); lia].
  intros x Hx. right. exact Hx.
Defined.

(** X7: for a sample whose elements are all strictly positive, adding
    the same nonnegative offset to every element changes nothing: only
    the spacings matter. *)
Theorem analyze_integrity_shift_invariant
        (b : R) (input : list R) (lbl : string) (w : world) :
  0 <= b ->
  Forall (fun x => 0 < x) input ->
  analyze_integrity (map (fun x => x + b) input) lbl w
  = analyze_integrity input lbl w.
Proof.
  intros Hb Hpos.
  rewrite <- (analyze_integrity_affine 1 b input lbl w ltac:(lra)).
  - f_equal. apply map_ext. intros x. ring.
  - intros x Hx. rewrite Forall_forall in Hpos. specialize (Hpos x Hx).
    split; intros; lra.
Qed.

Lemma analyze_integrity_shift_invariant_witness :
  analyze_integrity (map (fun x => x + 7) [1; 2; 3]) "s" engine
  = analyze_integrity [1; 2; 3] "s" engine.
Proof.
  apply (analyze_integrity_shift_invariant 7 [1; 2; 3]); [lra|].
  repeat constructor; lra.
Defined.

(** ** The score of every returned record *)

(** Unfolding data whose consecutive differences are all zero: every
    spacing is 0/0. *)
Lemma unfold_degenerate (c : list R) :
  Forall (fun d => d = 0) (np_diff c) ->
  _unfold c = repeat NaN (length c - 1).
Proof.
  intros Hz. unfold _unfold.
  pose proof (np_diff_length c) as Hlen.
  destruct (length (np_diff c) =? 0)%nat eqn:E.
  - apply Nat.eqb_eq in E. rewrite <- Hlen, E. reflexivity.
  - rewrite (map_const _ NaN); [now rewrite Hlen|].
    intros d Hd. rewrite (proj1 (Forall_forall _ _) Hz d Hd).
    unfold np_mean. rewrite (Rsum_zero _ Hz).
    apply Nat.eqb_neq in E.
    rewrite fdiv_fin by (apply not_0_INR; exact E).
    replace (0 / _) with 0 by (field; apply not_0_INR; exact E).
    apply fdiv_zero_zero.
Qed.

Lemma empirical_histogram_degenerate (c : list R) :
  Forall (fun d => d = 0) (np_diff c) ->
  empirical_histogram c = repeat NaN 39.
Proof.
  intros Hz. unfold empirical_histogram. rewrite unfold_degenerate by assumption.
  rewrite np_histogram_density_all_nan.
  - now rewrite bins_length.
  - apply Forall_forall. intros x Hx. now apply repeat_spec in Hx.
Qed.

Lemma nondegenerate_dec (c : list R) :
  {nondegenerate c} + {Forall (fun d => d = 0) (np_diff c)}.
Proof.
  destruct (Forall_Exists_dec (fun d => d = 0) (fun d => Req_dec_T d 0) (np_diff c))
    as [H|H].
  - now right.
  - left. apply Exists_exists in H. exact H.
Qed.

(** A sharper form of the bound on the midpoint sum of the curve. *)
Lemma wigner_upper_total_margin :
  (32 * 100000 ^ 2 * 10000
   * Zsum (map (fun k => wigner_term_upper fx_scale fx_prec fx_steps 31416 10000
                           (Z.of_nat k)) (seq 0 39))
   < 129996 * 676 * 314159 ^ 2 * fx_prec)%Z.
Proof. vm_compute. reflexivity. Qed.

Lemma wigner_midpoint_sum_margin :
  Rsum (theoretical_curve __init__) < 129996 / 10000.
Proof.
  rewrite theoretical_curve_init.
  eapply Rle_lt_trans.
  - apply Rsum_map_le. intros k _.
    apply (wigner_term_bound fx_scale fx_prec fx_steps); reflexivity.
  - rewrite (Rsum_map_scaled _
               (fun k => wigner_term_upper fx_scale fx_prec fx_steps 31416 10000
                           (Z.of_nat k))).
    pose proof wigner_upper_total_margin as H.
    apply IZR_lt in H.
    set (z := Zsum _) in *.
    rewrite !mult_IZR in H.
    change (IZR (100000 ^ 2)) with (IZR 10000000000) in H.
    change (IZR (314159 ^ 2)) with (IZR 98695877281) in H.
    change fx_prec with 1000000000000%Z in *.
    lra.
Qed.

(** The divergence of a non-degenerate sample is at least the gap
    between the two sums. *)
Lemma divergence_lower_bound (c : list R) :
  StronglySorted Rle c -> nondegenerate c ->
  exists d, divergence (empirical_histogram c) (theoretical_curve __init__) = Fin d
            /\ 13 - Rsum (theoretical_curve __init__) <= d.
Proof.
  intros c_sorted c_nondegenerate.
  set (N := Zsum (histogram_counts (_unfold c) bins)).
  set (hs := map (fun n => IZR n / (1 / 13) / IZR N)
                 (histogram_counts (_unfold c) bins)).
  assert (Heq : empirical_histogram c = map Fin hs).
  { unfold hs. rewrite map_map. now apply empirical_histogram_fin. }
  assert (Hnn : Forall (fun h => 0 <= h) hs).
  { unfold hs. apply Forall_forall. intros h Hh.
    apply in_map_iff in Hh. destruct Hh as [n [<- Hn]].
    pose proof (empirical_histogram_nonneg c c_sorted c_nondegenerate) as H.
    rewrite Forall_forall in H. now apply H. }
  assert (Hsum : Rsum hs = 13).
  { pose proof (empirical_histogram_sum c c_sorted c_nondegenerate) as H.
    rewrite Heq, np_sum_fin in H. now injection H. }
  assert (Hlen : length hs = length (theoretical_curve __init__)).
  { unfold hs. rewrite length_map, histogram_counts_length, bins_length.
    now rewrite theoretical_curve_length. }
  exists (kl_sum hs (theoretical_curve __init__)). split.
  - rewrite Heq. apply divergence_fin; [assumption|].
    apply theoretical_curve_nonneg.
  - pose proof (kl_sum_lower hs _ Hnn theoretical_curve_nonneg Hlen). lra.
Qed.

(** X8: for a sample whose strictly positive values lie between 1e-100
    and 1e100, the score of a record returned by the analyzer built by
    [__init__] is NaN when these values are all equal (all consecutive
    differences zero) and otherwise a real number strictly between 0
    and 99.97: a perfect 100 is never reached. *)
Theorem score_nan_or_strictly_inside
        (input : list R) (lbl : string) (w : world) (r : ScoreResult) :
  self w = __init__ ->
  float_safe (clean_data input) ->
  fst (analyze_integrity input lbl w) = Returned (Some r) ->
  (Forall (fun d => d = 0) (np_diff (clean_data input)) /\ score r = NaN)
  \/ (nondegenerate (clean_data input)
      /\ exists x, score r = Fin x /\ 0 < x < 9997 / 100).
Proof.
  intros Hself _ H.
  destruct (Nat.lt_ge_cases (length (clean_data input)) 50) as [Hc|Hc].
  { rewrite analyze_integrity_short in H by assumption. discriminate. }
  rewrite analyze_integrity_long in H by assumption.
  injection H as <-. cbn [score]. rewrite Hself.
  destruct (nondegenerate_dec (clean_data input)) as [Hnd|Hz].
  - right. split; [assumption|].
    destruct (divergence_lower_bound (clean_data input)
                (clean_data_sorted input) Hnd) as [d [Hd Hlow]].
    pose proof wigner_midpoint_sum_margin as Hm.
    rewrite Hd, score_of_fin. eexists. split; [reflexivity|].
    pose proof (exp_pos (- d)).
    pose proof (exp_ineq1_le d) as He.
    assert (exp (- d) <= / (1 + 4 / 10000)).
    { rewrite exp_Ropp. apply Rinv_le_contravar; lra. }
    assert (/ (1 + 4 / 10000) < 9997 / 10000).
    { apply Rmult_lt_reg_r with (1 + 4 / 10000); [lra|].
      rewrite Rinv_l by lra. lra. }
    lra.
  - left. split; [assumption|].
    now rewrite empirical_histogram_degenerate, divergence_all_nan.
Qed.

Lemma score_nan_or_strictly_inside_witness :
  exists r, fst (analyze_integrity (ramp 50) "ramp" engine) = Returned (Some r)
            /\ exists x, score r = Fin x /\ 0 < x < 9997 / 100.
Proof.
  assert (H : (50 <= length (clean_data (ramp 50)))%nat)
    by (rewrite clean_data_ramp, ramp_length; lia).
  eexists. split; [rewrite analyze_integrity_long by exact H; reflexivity|].
  destruct (score_nan_or_strictly_inside (ramp 50) "ramp" engine _ eq_refl
              ltac:(rewrite clean_data_ramp; apply ramp_float_safe; lia)
              ltac:(rewrite analyze_integrity_long by exact H; reflexivity))
    as [[Hz _]|[_ Hx]].
  - exfalso. destruct (ramp_nondegenerate 48) as [d [Hin Hd]].
    rewrite clean_data_ramp in Hz.
    apply Hd. exact (proj1 (Forall_forall _ _) Hz d Hin).
  - exact Hx.
Defined.

(** ** What the histogram counts *)

Lemma Zsum_member_le (l : list Z) (x : Z) :
  Forall (fun n => (0 <= n)%Z) l -> In x l -> (x <= Zsum l)%Z.
Proof.
  induction 1 as [|y l Hy Hl IH]; intros Hin; [destruct Hin|].
  assert (0 <= Zsum l)%Z.
  { clear -Hl. induction Hl; unfold Zsum in *; simpl; lia. }
  unfold Zsum in *. cbn [fold_right].
  destruct Hin as [->|Hin]; [lia|]. specialize (IH Hin). lia.
Qed.

Lemma count_if_map {X Y : Type} (p : Y -> bool) (f : X -> Y) (l : list X) :
  count_if p (map f l) = count_if (fun x => p (f x)) l.
Proof.
  unfold count_if. f_equal.
  induction l as [|x l IH]; [reflexivity|].
  cbn [map filter]. destruct (p (f x)); simpl; now rewrite IH.
Qed.

Lemma filter_length_bound {X : Type} (p : X -> bool) (l : list X) :
  (length (filter p l) <= length l)%nat.
Proof.
  induction l as [|x l IH]; [apply Nat.le_refl|].
  cbn [filter]. destruct (p x); simpl; lia.
Qed.

(** X9: for a cleaned sample with non-degenerate spacings whose values
    lie between 1e-100 and 1e100, the histogram keeps at least one of
    the [len - 1] unfolded spacings and never more than all of them, it
    has 39 cells, and every density is a real number between 0 and 13
    up to rounding (at most 13 + 1e-9). *)
Theorem histogram_counts_and_density_bounds (input : list R) :
  let c := clean_data input in
  nondegenerate c ->
  float_safe c ->
  (1 <= Zsum (histogram_counts (_unfold c) bins) <= Z.of_nat (length c) - 1)%Z
  /\ length (empirical_histogram c) = 39%nat
  /\ Forall (fun h => exists x, h = Fin x /\ 0 <= x <= 13 + / 10 ^ 9)
            (empirical_histogram c).
Proof.
  intros c Hnd _. subst c.
  pose proof (clean_data_sorted input) as Hs.
  pose proof (histogram_total_pos _ Hs Hnd) as HN.
  pose proof (mean_spacing_pos _ Hs Hnd) as Hm.
  split; [split; [exact HN|] | split].
  - rewrite histogram_total_bins, unfold_nondegenerate by assumption.
    unfold searchsorted_right, searchsorted_left. rewrite !count_if_map.
    cbn [fle flt].
    rewrite (count_if_none (fun d => Rltb (d / mean_spacing (clean_data input)) 0)).
    + unfold count_if.
      pose proof (filter_length_bound
                    (fun d => Rleb (d / mean_spacing (clean_data input)) 3)
                    (np_diff (clean_data input))) as Hf.
      rewrite np_diff_length in Hf.
      assert (Hd : (1 <= length (np_diff (clean_data input)))%nat).
      { destruct Hnd as [d [Hin _]].
        destruct (np_diff (clean_data input)); [destruct Hin | simpl; lia]. }
      rewrite np_diff_length in Hd. lia.
    + pose proof (np_diff_nonneg _ Hs) as Hd.
      eapply Forall_impl; [|exact Hd]. intros d H0. cbv beta in H0.
      apply Rltb_false. apply Rdiv_nonneg; lra.
  - rewrite empirical_histogram_fin by assumption.
    now rewrite length_map, histogram_counts_length, bins_length.
  - rewrite empirical_histogram_fin by assumption.
    apply Forall_forall. intros h Hh. apply in_map_iff in Hh.
    destruct Hh as [n [<- Hn]]. eexists. split; [reflexivity|].
    pose proof (histogram_counts_nonneg (_unfold (clean_data input)) bins bins_sorted)
      as Hnn.
    pose proof (Zsum_member_le _ n Hnn Hn) as Hle.
    rewrite Forall_forall in Hnn. specialize (Hnn n Hn). cbv beta in Hnn.
    set (N := Zsum (histogram_counts (_unfold (clean_data input)) bins)) in *.
    assert (0 < IZR N) by (apply IZR_lt; lia).
    assert (0 <= IZR n) by (apply IZR_le; lia).
    assert (IZR n <= IZR N) by (apply IZR_le; lia).
    replace (IZR n / (1 / 13) / IZR N) with (13 * (IZR n / IZR N)) by (field; lra).
    assert (0 <= IZR n / IZR N) by (apply Rdiv_nonneg; lra).
    assert (IZR n / IZR N <= 1).
    { apply Rmult_le_reg_r with (IZR N); [assumption|].
      unfold Rdiv. rewrite Rmult_assoc, Rinv_l by lra. lra. }
    assert (0 < / 10 ^ 9) by (apply Rinv_0_lt_compat, pow_lt; lra).
    lra.
Qed.

Lemma histogram_counts_and_density_bounds_witness :
  (1 <= Zsum (histogram_counts (_unfold (clean_data (ramp 3))) bins) <= 2)%Z.
Proof.
  destruct (histogram_counts_and_density_bounds (ramp 3)) as [H _].
  - rewrite clean_data_ramp. apply ramp_nondegenerate.
  - rewrite clean_data_ramp. apply ramp_float_safe. lia.
  - rewrite clean_data_ramp in H |- *. rewrite ramp_length in H. exact H.
Defined.

(** ** The theoretical curve *)

Lemma x_exp_bound (t : R) : t * exp (- t) <= / exp 1.
Proof.
  pose proof (exp_ineq1_le (t - 1)) as H.
  replace (1 + (t - 1)) with t in H by ring.
  pose proof (exp_pos (- t)) as Hp.
  apply Rle_trans with (exp (t - 1) * exp (- t)).
  - apply Rmult_le_compat_r; lra.
  - rewrite <- exp_plus, <- exp_Ropp. right. f_equal. ring.
Qed.

(** X10: the values [_wigner_pdf] computes with the constants of
    [__init__] are even in [s], vanish at 0, and lie between 0 and
    8/(pi e), a bound reached at s = sqrt(pi)/2. *)
Theorem wigner_pdf_range (ss : list R) (w : world) :
  self w = __init__ ->
  exists vs,
    _wigner_pdf ss w = (Returned vs, w)
    /\ vs = map (wigner_dyson (32 / PI ^ 2) (4 / PI)) ss
    /\ Forall (fun v => 0 <= v <= 8 / (PI * exp 1)) vs
    /\ (forall s, wigner_dyson (32 / PI ^ 2) (4 / PI) (- s)
                  = wigner_dyson (32 / PI ^ 2) (4 / PI) s)
    /\ wigner_dyson (32 / PI ^ 2) (4 / PI) 0 = 0
    /\ wigner_dyson (32 / PI ^ 2) (4 / PI) (sqrt PI / 2) = 8 / (PI * exp 1).
Proof.
  intros Hself. pose proof PI_RGT_0 as Hpi.
  pose proof (exp_pos 1) as He.
  eexists. split; [unfold _wigner_pdf, bind, attr, ret; rewrite Hself; reflexivity|].
  cbn [A B __init__].
  split; [reflexivity|]. split; [|split; [|split]].
  - apply Forall_forall. intros v Hv. apply in_map_iff in Hv.
    destruct Hv as [s [<- _]]. split.
    + apply wigner_dyson_nonneg. apply Rdiv_nonneg; [lra | apply pow_lt; lra].
    + unfold wigner_dyson.
      pose proof (x_exp_bound (4 / PI * s ^ 2)) as Hb.
      replace (- (4 / PI) * s ^ 2) with (- (4 / PI * s ^ 2)) by ring.
      replace (32 / PI ^ 2 * s ^ 2 * exp (- (4 / PI * s ^ 2)))
        with (8 / PI * (4 / PI * s ^ 2 * exp (- (4 / PI * s ^ 2))))
        by (field; lra).
      replace (8 / (PI * exp 1)) with (8 / PI * / exp 1)
        by (field; split; lra).
      apply Rmult_le_compat_l; [|assumption].
      apply Rdiv_nonneg; lra.
  - intros s. unfold wigner_dyson. f_equal; [f_equal; ring | f_equal; ring].
  - unfold wigner_dyson. ring.
  - unfold wigner_dyson.
    assert (Hsq : (sqrt PI / 2) ^ 2 = PI / 4).
    { replace ((sqrt PI / 2) ^ 2) with (sqrt PI * sqrt PI / 4) by field.
      rewrite sqrt_sqrt by lra. reflexivity. }
    rewrite Hsq.
    replace (- (4 / PI) * (PI / 4)) with (- (1)) by (field; lra).
    rewrite exp_Ropp. field. split; lra.
Qed.

Lemma wigner_pdf_range_witness :
  exists vs, _wigner_pdf [0; 1; 2] engine = (Returned vs, engine)
             /\ Forall (fun v => 0 <= v <= 8 / (PI * exp 1)) vs.
Proof.
  destruct (wigner_pdf_range [0; 1; 2] engine eq_refl) as [vs [H1 [_ [H3 _]]]].
  exists vs. split; assumption.
Defined.

(** ** The resonance scan: exceptions and sign *)

Lemma analyze_integrity_returns (input : list R) (lbl : string) (w : world) :
  exists v, fst (analyze_integrity input lbl w) = Returned v.
Proof.
  destruct (Nat.lt_ge_cases (length (clean_data input)) 50) as [H|H].
  - rewrite analyze_integrity_short by assumption. now eexists.
  - rewrite analyze_integrity_long by assumption. now eexists.
Qed.

(** X11: [scan_resonance] raises exactly on the empty sample (the
    [ValueError] of the Fourier transform, nothing printed, instance
    untouched); on every other sample it returns normally. *)
Theorem scan_resonance_raises_iff_empty (data : list R) (w : world) :
  ((exists e, fst (scan_resonance data w) = Raised e) <-> data = [])
  /\ (data = [] ->
      scan_resonance data w
      = (Raised (ValueError "Invalid number of FFT data points (0) specified."), w))
  /\ (data <> [] -> exists v, fst (scan_resonance data w) = Returned v).
Proof.
  destruct data as [|x data].
  - split; [|split].
    + split; [reflexivity|]. intros _. eexists. reflexivity.
    + intros _. reflexivity.
    + intros H. contradiction.
  - assert (Hr : exists v, fst (scan_resonance (x :: data) w) = Returned v).
    { rewrite scan_resonance_unfold by discriminate.
      apply analyze_integrity_returns. }
    split; [|split].
    + split; [|discriminate]. intros [e He]. destruct Hr as [v Hv].
      rewrite Hv in He. discriminate.
    + discriminate.
    + intros _. exact Hr.
Qed.

Lemma Cscale_zero (a : R) : Cscale a (0, 0) = (0, 0).
Proof. unfold Cscale; cbn [fst snd]; f_equal; ring. Qed.

Lemma Cscale_Cadd (a : R) (u v : C) :
  Cscale a (Cadd u v) = Cadd (Cscale a u) (Cscale a v).
Proof. unfold Cscale, Cadd; cbn [fst snd]; f_equal; ring. Qed.

Lemma Cscale_Cmul (a : R) (z v : C) :
  Cmul (Cscale a z) v = Cscale a (Cmul z v).
Proof. unfold Cscale, Cmul; cbn [fst snd]; f_equal; ring. Qed.

Lemma Cscale_Cscale (a x : R) (z : C) :
  Cscale (a * x) z = Cscale a (Cscale x z).
Proof. unfold Cscale; cbn [fst snd]; f_equal; ring. Qed.

Lemma Cabs_Cscale (a : R) (z : C) : Cabs (Cscale a z) = Rabs a * Cabs z.
Proof.
  unfold Cabs, Cscale. cbn [fst snd].
  replace (a * fst z * (a * fst z) + a * snd z * (a * snd z))
    with (Rsqr a * (fst z * fst z + snd z * snd z)) by (unfold Rsqr; ring).
  rewrite sqrt_mult; [now rewrite sqrt_Rsqr_abs | apply Rle_0_sqr |].
  pose proof (Rle_0_sqr (fst z)). pose proof (Rle_0_sqr (snd z)).
  unfold Rsqr in *. lra.
Qed.

Lemma map2_Cscale_scaled (a : R) (data : list R) (fs : list C) :
  map2 Cscale (map (fun x => a * x) data) fs
  = map (Cscale a) (map2 Cscale data fs).
Proof.
  revert fs; induction data as [|x data IH]; intros [|f fs]; try reflexivity.
  cbn [map map2]. now rewrite IH, Cscale_Cscale.
Qed.

Lemma Csum_map2_scaled (a : R) (v : nat -> C) (ts : list nat) (zs : list C) :
  Csum (map2 (fun t zt => Cmul zt (v t)) ts (map (Cscale a) zs))
  = Cscale a (Csum (map2 (fun t zt => Cmul zt (v t)) ts zs)).
Proof.
  revert ts; induction zs as [|z zs IH]; intros [|t ts];
    try (cbn [map map2 Csum fold_right]; now rewrite Cscale_zero).
  cbn [map map2 Csum fold_right].
  fold (Csum (map2 (fun t zt => Cmul zt (v t)) ts (map (Cscale a) zs))).
  fold (Csum (map2 (fun t zt => Cmul zt (v t)) ts zs)).
  now rewrite IH, Cscale_Cadd, Cscale_Cmul.
Qed.

(** Scaling the sample by [a] scales every magnitude by [|a|]. *)
Lemma resonance_transform_scaled (eta a : R) (data : list R) :
  resonance_transform eta (map (fun x => a * x) data)
  = map (fun m => Rabs a * m) (resonance_transform eta data).
Proof.
  unfold resonance_transform, dft. rewrite length_map.
  rewrite map2_Cscale_scaled, length_map, !map_map.
  apply map_ext. intros k.
  rewrite (Csum_map2_scaled a
             (fun t => Cexp_i (- (2 * PI * INR k * INR t)
                               / INR (length (map2 Cscale data
                                   (map (fun t0 => Cexp_i (eta / (INR t0 + 1)))
                                        (seq 0 (length data)))))))).
  apply Cabs_Cscale.
Qed.

(** X12: the resonance scan does not depend on the sign of the sample:
    negating every element changes nothing in its outcome, exceptions
    included (the transform of the negated sample is the negated
    transform, with the same magnitudes). *)
Theorem scan_resonance_sign_invariant (data : list R) (w : world) :
  scan_resonance (map Ropp data) w = scan_resonance data w.
Proof.
  destruct data as [|x data]; [reflexivity|].
  replace (map Ropp (x :: data)) with (map (fun y => -1 * y) (x :: data))
    by (apply map_ext; intros y; ring).
  rewrite !scan_resonance_unfold by discriminate.
  rewrite resonance_transform_scaled.
  f_equal. rewrite <- (map_id (resonance_transform _ (x :: data))) at 2.
  apply map_ext. intros m.
  replace (Rabs (-1)) with 1; [ring|].
  unfold Rabs. destruct (Rcase_abs (-1)); lra.
Qed.

(** ** The report *)

Lemma generate_report_some (fmt : float -> string) (r : ScoreResult) (w : world) :
  generate_report fmt (Some r) w = (Returned tt, printed_all w (report_lines fmt r)).
Proof.
  unfold generate_report, bind, print, printed_all, report_lines.
  cbn [self stdout]. rewrite <- !app_assoc. reflexivity.
Qed.

Lemma generate_report_none (fmt : float -> string) (w : world) :
  generate_report fmt None w = (Returned tt, w).
Proof. reflexivity. Qed.

Lemma veredicto_fin (x : R) :
  (veredicto (Fin x) = veredicto_robusto <-> 80 < x)
  /\ (veredicto (Fin x) = veredicto_ruido <-> x < 30)
  /\ (veredicto (Fin x) = veredicto_transicion <-> 30 <= x <= 80).
Proof.
  unfold veredicto, fgt, flt.
  destruct (Rlt_dec 80 x) as [H|H].
  - rewrite Rltb_true by assumption.
    repeat split; intros; try reflexivity; try discriminate; try lra.
  - rewrite (Rltb_false 80 x) by lra.
    destruct (Rlt_dec x 30) as [H'|H'].
    + rewrite Rltb_true by assumption.
      repeat split; intros; try reflexivity; try discriminate; try lra.
    + rewrite (Rltb_false x 30) by lra.
      repeat split; intros; try reflexivity; try discriminate; try lra.
Qed.

(** X13: [generate_report] prints nothing for [None]; for a record it
    prints exactly three texts (header with the label, integrity,
    verdict) and returns.  The verdict is "robusto" exactly for scores
    above 80, "ruido" exactly for scores below 30, and "transicion"
    otherwise: for scores from 30 to 80, both bounds included, and for a
    NaN score. *)
Theorem generate_report_verdict
        (fmt : float -> string) (result : option ScoreResult) (w : world) :
  match result with
  | None => generate_report fmt result w = (Returned tt, w)
  | Some r =>
      generate_report fmt result w
      = (Returned tt, printed_all w (report_lines fmt r))
      /\ (forall x, score r = Fin x ->
            (veredicto (score r) = veredicto_robusto <-> 80 < x)
            /\ (veredicto (score r) = veredicto_ruido <-> x < 30)
            /\ (veredicto (score r) = veredicto_transicion <-> 30 <= x <= 80))
      /\ (score r = NaN -> veredicto (score r) = veredicto_transicion)
  end.
Proof.
  destruct result as [r|]; [|reflexivity].
  split; [apply generate_report_some|]. split.
  - intros x ->. apply veredicto_fin.
  - intros ->. reflexivity.
Qed.

(** X14: scoring a sample with fewer than 50 strictly positive elements
    and reporting the outcome prints the diagnostic line and nothing
    else: no report is produced. *)
Theorem report_after_insufficient_sample
        (fmt : float -> string) (input : list R) (lbl : string) (w : world) :
  (length (filter (fun x => Rltb 0 x) input) < 50)%nat ->
  (res <- analyze_integrity input lbl ;; generate_report fmt res) w
  = (Returned tt, printed w (diagnostic lbl)).
Proof.
  intros H. rewrite <- clean_data_length in H.
  unfold bind. rewrite analyze_integrity_short by assumption. reflexivity.
Qed.

Lemma report_after_insufficient_sample_witness :
  (res <- analyze_integrity [1; 2; -5] "s" ;; generate_report (fun _ => "?"%string) res)
    engine
  = (Returned tt, printed engine (diagnostic "s")).
Proof.
  apply (report_after_insufficient_sample (fun _ => "?"%string) [1; 2; -5]).
  eapply Nat.le_lt_trans; [apply filter_length_le|]. simpl; lia.
Defined.

(** X15: a sample of at least 50 copies of one strictly positive value
    is scored NaN and reported as "TRANSICIÓN / SOSPECHOSO". *)
Theorem report_of_constant_sample
        (fmt : float -> string) (v : R) (n : nat) (lbl : string) (w : world) :
  0 < v -> (50 <= n)%nat ->
  (res <- analyze_integrity (repeat v n) lbl ;; generate_report fmt res) w
  = (Returned tt,
     printed_all w
       [ (newline ++ "📊 REPORTE RIEMANN-S: " ++ lbl)%string;
         ("   > Integridad Estructural: " ++ fmt NaN ++ "%")%string;
         "   > ESTADO: TRANSICIÓN / SOSPECHOSO"%string ]).
Proof.
  intros Hv Hn. unfold bind.
  rewrite analyze_integrity_long
    by (rewrite clean_data_repeat_pos, repeat_length; assumption).
  rewrite clean_data_repeat_pos by assumption.
  rewrite empirical_histogram_constant, divergence_all_nan.
  rewrite generate_report_some. reflexivity.
Qed.

Lemma report_of_constant_sample_witness :
  (res <- analyze_integrity (repeat 7 60) "s" ;; generate_report (fun _ => "nan"%string) res)
    engine
  = (Returned tt,
     printed_all engine
       [ (newline ++ "📊 REPORTE RIEMANN-S: s")%string;
         "   > Integridad Estructural: nan%"%string;
         "   > ESTADO: TRANSICIÓN / SOSPECHOSO"%string ]).
Proof.
  apply (report_of_constant_sample (fun _ => "nan"%string) 7 60 "s" engine);
    [lra | lia].
Defined.

Lemma exp_four (x : R) : exp (4 * x) = exp x * exp x * exp x * exp x.
Proof.
  replace (4 * x) with (x + x + x + x) by ring. now rewrite !exp_plus.
Qed.

(** Bands of the divergence on which the verdict is settled with a
    margin. *)
Lemma score_bands (d : R) :
  (d <= 1 / 5 -> 80 < 100 * exp (- d))
  /\ (1 / 4 <= d <= 1 -> 30 <= 100 * exp (- d) <= 80)
  /\ (3 / 2 <= d -> 100 * exp (- d) < 30).
Proof.
  assert (Hmono : forall a b, a <= b -> exp a <= exp b).
  { intros a b [H| ->]; [left; now apply exp_increasing | right; reflexivity]. }
  split; [|split].
  - intros H. pose proof (Hmono (- (1 / 5)) (- d) ltac:(lra)).
    pose proof (exp_ineq1 (- (1 / 5)) ltac:(lra)). lra.
  - intros [H1 H2]. split.
    + pose proof (Hmono (- 1) (- d) ltac:(lra)) as Hle.
      pose proof (exp_four (- (1 / 4))) as E.
      replace (4 * - (1 / 4)) with (- 1) in E by field.
      pose proof (exp_ineq1_le (- (1 / 4))) as Hq.
      assert (3 / 4 <= exp (- (1 / 4))) by lra.
      assert (3 / 4 * (3 / 4) <= exp (- (1 / 4)) * exp (- (1 / 4))) by nra.
      assert (3 / 4 * (3 / 4) * (3 / 4)
              <= exp (- (1 / 4)) * exp (- (1 / 4)) * exp (- (1 / 4))) by nra.
      assert (3 / 4 * (3 / 4) * (3 / 4) * (3 / 4)
              <= exp (- (1 / 4)) * exp (- (1 / 4)) * exp (- (1 / 4))
                 * exp (- (1 / 4))) by nra.
      lra.
    + pose proof (Hmono (- d) (- (1 / 4)) ltac:(lra)) as Hle.
      pose proof (exp_ineq1_le (1 / 4)) as Hq.
      assert (exp (- (1 / 4)) <= / (1 + 1 / 4)).
      { rewrite exp_Ropp. apply Rinv_le_contravar; lra. }
      assert (/ (1 + 1 / 4) = 4 / 5) by field. lra.
  - intros H. pose proof (Hmono (- d) (- (3 / 2)) ltac:(lra)) as Hle.
    pose proof (exp_four (3 / 8)) as E.
    replace (4 * (3 / 8)) with (3 / 2) in E by field.
    pose proof (exp_ineq1_le (3 / 8)) as Hq.
    assert (11 / 8 <= exp (3 / 8)) by lra.
    assert (11 / 8 * (11 / 8) <= exp (3 / 8) * exp (3 / 8)) by nra.
    assert (11 / 8 * (11 / 8) * (11 / 8)
            <= exp (3 / 8) * exp (3 / 8) * exp (3 / 8)) by nra.
    assert (11 / 8 * (11 / 8) * (11 / 8) * (11 / 8)
            <= exp (3 / 8) * exp (3 / 8) * exp (3 / 8) * exp (3 / 8)) by nra.
    assert (Hb : 7 / 2 <= exp (3 / 2)) by lra.
    assert (exp (- (3 / 2)) <= / (7 / 2)).
    { rewrite exp_Ropp. apply Rinv_le_contravar; lra. }
    assert (/ (7 / 2) = 2 / 7) by field. lra.
Qed.

(** X16: for a sample with at least 50 strictly positive values, not all
    equal and between 1e-100 and 1e100, the verdict follows the
    divergence [d] of the histogram and the curve held by the returned
    record: "robusto" whenever [d <= 0.2], "transicion" whenever
    [0.25 <= d <= 1], "ruido" whenever [d >= 1.5]. *)
Theorem verdict_by_divergence
        (input : list R) (lbl : string) (w : world) :
  self w = __init__ ->
  (50 <= length (clean_data input))%nat ->
  nondegenerate (clean_data input) ->
  float_safe (clean_data input) ->
  exists (r : ScoreResult) (d : R),
    fst (analyze_integrity input lbl w) = Returned (Some r)
    /\ divergence (snd (fst (spectrum r))) (snd (spectrum r)) = Fin d
    /\ (d <= 1 / 5 -> veredicto (score r) = veredicto_robusto)
    /\ (1 / 4 <= d <= 1 -> veredicto (score r) = veredicto_transicion)
    /\ (3 / 2 <= d -> veredicto (score r) = veredicto_ruido).
Proof.
  intros Hself Hlen Hnd _.
  destruct (divergence_nondegenerate (clean_data input)
              (clean_data_sorted input) Hnd) as [d [Hd _]].
  rewrite analyze_integrity_long by assumption. rewrite Hself, Hd.
  eexists; exists d. split; [reflexivity|].
  cbn [score spectrum fst snd]. split; [exact Hd|].
  rewrite score_of_fin.
  destruct (veredicto_fin (100 * exp (- d))) as [H1 [H2 H3]].
  destruct (score_bands d) as [B1 [B2 B3]].
  split; [|split]; intros H.
  - apply H1, B1, H.
  - apply H3, B2, H.
  - apply H2, B3, H.
Qed.

Lemma verdict_by_divergence_witness :
  exists (r : ScoreResult) (d : R),
    fst (analyze_integrity (ramp 50) "ramp" engine) = Returned (Some r)
    /\ (3 / 2 <= d -> veredicto (score r) = veredicto_ruido).
Proof.
  destruct (verdict_by_divergence (ramp 50) "ramp" engine)
    as [r [d [H1 [_ [_ [_ H5]]]]]].
  - reflexivity.
  - rewrite clean_data_ramp, ramp_length. lia.
  - rewrite clean_data_ramp. apply ramp_nondegenerate.
  - rewrite clean_data_ramp. apply ramp_float_safe. lia.
  - exists r, d. split; assumption.
Defined.

(** ** The example run *)

Lemma bind_returned {X Y : Type} (m : M X) (k : X -> M Y) (w w' : world) (x : X) :
  m w = (Returned x, w') -> bind m k w = k x w'.
Proof. intros H. unfold bind. now rewrite H. Qed.

Lemma cumsum_from_length (acc : R) (l : list R) :
  length (cumsum_from acc l) = length l.
Proof. revert acc; induction l; intros acc; simpl; auto. Qed.

Lemma cumsum_from_above (acc : R) (l : list R) :
  Forall (fun x => 0 < x) l -> Forall (fun y => acc < y) (cumsum_from acc l).
Proof.
  intros H; revert acc. induction H as [|x l Hx _ IH]; intros acc; simpl;
    constructor; [lra|].
  eapply Forall_impl; [|apply IH]. intros y Hy. cbv beta in Hy. lra.
Qed.

Lemma cumsum_from_sorted (acc : R) (l : list R) :
  Forall (fun x => 0 < x) l -> StronglySorted Rle (cumsum_from acc l).
Proof.
  intros H; revert acc. induction H as [|x l Hx Hl IH]; intros acc; simpl;
    constructor; [apply IH|].
  eapply Forall_impl; [|apply cumsum_from_above; exact Hl].
  intros y Hy. cbv beta in Hy. lra.
Qed.

Lemma np_cumsum_length (l : list R) : length (np_cumsum l) = length l.
Proof. destruct l; simpl; [reflexivity|]. now rewrite cumsum_from_length. Qed.

(** Running sums of strictly positive increments are already clean:
    positive and ascending. *)
Lemma clean_data_cumsum (l : list R) :
  Forall (fun x => 0 < x) l -> clean_data (np_cumsum l) = np_cumsum l.
Proof.
  intros H. destruct H as [|x l Hx Hl]; [reflexivity|].
  pose proof (cumsum_from_above x l Hl) as Ha.
  unfold clean_data. rewrite filter_all.
  - apply np_sort_sorted_id. cbn [np_cumsum]. constructor.
    + now apply cumsum_from_sorted.
    + eapply Forall_impl; [|exact Ha]. intros y Hy. cbv beta in Hy. lra.
  - cbn [np_cumsum]. constructor; [now apply Rltb_true|].
    eapply Forall_impl; [|exact Ha]. intros y Hy. cbv beta in Hy.
    apply Rltb_true. lra.
Qed.

Lemma np_cumsum_nondegenerate (l : list R) :
  Forall (fun x => 0 < x) l -> (2 <= length l)%nat -> nondegenerate (np_cumsum l).
Proof.
  intros H Hlen.
  destruct l as [|x [|y l]]; simpl in Hlen; try lia.
  inversion H as [|? ? Hx H']; subst. inversion H' as [|? ? Hy _]; subst.
  exists (x + y - x). split; [|lra].
  cbn [np_cumsum cumsum_from]. rewrite np_diff_cons2. now left.
Qed.

(** X17: the example run, for any drawn increments that are strictly
    positive and at least 50 in number: it returns without raising,
    leaves a freshly built instance, and prints the start banner
    followed by a complete report of the first analysis, whose score is
    a real number strictly between 0 and 100; then either the
    diagnostic of the resonance scan or its complete report. *)
Theorem main_prints_first_report
        (fmt : float -> string) (draw : list R) (w : world) :
  Forall (fun x => 0 < x) draw ->
  (50 <= length draw)%nat ->
  exists (r1 : ScoreResult) (x : R) (tail : list string),
    main fmt draw w
    = (Returned tt,
       {| self := __init__;
          stdout := stdout w
                    ++ "Iniciando Riemann-S System..."%string
                       :: report_lines fmt r1 ++ tail |})
    /\ label r1 = "Test Ruido"%string
    /\ score r1 = Fin x /\ 0 < x < 100
    /\ (tail = [diagnostic "Resonancia (Eta=5.26)"]
        \/ exists r2, label r2 = "Resonancia (Eta=5.26)"%string
                      /\ tail = report_lines fmt r2).
Proof.
  intros Hpos Hlen.
  set (data := np_cumsum draw).
  assert (Hclean : clean_data data = data) by now apply clean_data_cumsum.
  assert (Hdl : length data = length draw) by apply np_cumsum_length.
  assert (Hnd : nondegenerate (clean_data data)).
  { rewrite Hclean. apply np_cumsum_nondegenerate; [assumption | lia]. }
  assert (Hne : data <> []).
  { intros E. rewrite E in Hdl. simpl in Hdl. lia. }
  destruct (divergence_nondegenerate (clean_data data)
              (clean_data_sorted data) Hnd) as [d [Hd Hdpos]].
  set (w1 := {| self := __init__;
                stdout := stdout w ++ ["Iniciando Riemann-S System..."%string] |}).
  set (r1 := {| label := "Test Ruido";
                score := Fin (100 * exp (- d));
                spectrum := (centers, empirical_histogram (clean_data data),
                             theoretical_curve __init__) |}).
  assert (H1 : analyze_integrity data "Test Ruido" w1 = (Returned (Some r1), w1)).
  { rewrite analyze_integrity_long by (rewrite Hclean, Hdl; exact Hlen).
    unfold r1. cbn [self w1]. now rewrite Hd. }
  set (w2 := printed_all w1 (report_lines fmt r1)).
  assert (Hscan : scan_resonance data w2
                  = analyze_integrity (resonance_transform 5.26 data)
                      "Resonancia (Eta=5.26)" w2).
  { rewrite scan_resonance_unfold by assumption.
    cbn [self w2 printed_all w1]. now rewrite value_eta. }
  assert (Hmain : main fmt draw w
                  = (res2 <- scan_resonance data ;; generate_report fmt res2) w2).
  { unfold main. fold data.
    unfold bind at 1. cbn [print]. unfold bind at 1. cbn [construct self stdout].
    fold w1. rewrite (bind_returned _ _ w1 w1 (Some r1) H1).
    rewrite (bind_returned _ _ w1 w2 tt (generate_report_some fmt r1 w1)).
    reflexivity. }
  assert (Hx : 0 < 100 * exp (- d) < 100).
  { pose proof (exp_pos (- d)).
    assert (exp (- d) < 1) by (rewrite <- exp_0; apply exp_increasing; lra).
    lra. }
  destruct (Nat.lt_ge_cases
              (length (clean_data (resonance_transform 5.26 data))) 50) as [Hs|Hs].
  - exists r1, (100 * exp (- d)), [diagnostic "Resonancia (Eta=5.26)"].
    split; [|repeat split; try reflexivity; try apply Hx; now left].
    rewrite Hmain.
    rewrite (bind_returned _ _ w2 (printed w2 (diagnostic "Resonancia (Eta=5.26)")) None).
    + rewrite generate_report_none. f_equal.
      unfold printed, w2, printed_all, w1. cbn [self stdout]. f_equal.
      rewrite <- !app_assoc. reflexivity.
    + rewrite Hscan. now apply analyze_integrity_short.
  - pose proof (analyze_integrity_long (resonance_transform 5.26 data)
                  "Resonancia (Eta=5.26)" w2 Hs) as H2.
    match type of H2 with _ = (Returned (Some ?r), _) => set (r2 := r) in * end.
    exists r1, (100 * exp (- d)), (report_lines fmt r2).
    split; [|repeat split; try reflexivity; try apply Hx;
             right; exists r2; split; reflexivity].
    rewrite Hmain.
    rewrite (bind_returned _ _ w2 w2 (Some r2)) by (rewrite Hscan; exact H2).
    rewrite generate_report_some. f_equal.
    unfold printed_all, w2, printed_all, w1. cbn [self stdout]. f_equal.
    rewrite <- !app_assoc. reflexivity.
Qed.

Lemma main_prints_first_report_witness :
  exists (r1 : ScoreResult) (x : R) (tail : list string),
    main (fun _ => "?"%string) (repeat 1 50) engine
    = (Returned tt,
       {| self := __init__;
          stdout := "Iniciando Riemann-S System..."%string
                    :: report_lines (fun _ => "?"%string) r1 ++ tail |})
    /\ score r1 = Fin x /\ 0 < x < 100.
Proof.
  destruct (main_prints_first_report (fun _ => "?"%string) (repeat 1 50) engine)
    as [r1 [x [tail [H1 [_ [H3 [H4 _]]]]]]].
  - apply Forall_forall. intros y Hy. apply repeat_spec in Hy. subst. lra.
  - rewrite repeat_length. lia.
  - exists r1, x, tail. split; [exact H1 | split; assumption].
Defined.
